(** * Laptop dataset tooling: cleaning pipeline and deterministic splitter

    A shallow embedding of [scripts/clean_laptop_dataset.py] and
    [scripts/split_laptop_dataset.py], with the properties of the
    repository's specification stated and proved over it.

    Conventions of the embedding:
    - a Python [str] is a list of Unicode code points ([list N]); a file's
      contents are a list of bytes;
    - a Python [float] is an IEEE 754 binary64 number, here Rocq's primitive
      [float], so every comparison and every rounding is the one the
      interpreter performs;
    - a directory is the list of its regular files in the order [iterdir]
      yields them, each with its contents;
    - a raised exception is the [Raise] case of the [result] monad;
    - the third-party libraries (codecs, [hashlib], OpenCV, Pillow, the
      number parsers behind [int()] and [float()]) are the fields of the
      record [Lib]: the embedding is parametric in them;
    - the source directory holds regular, readable files and is not written
      to during a run; [glob] compares names case-sensitively, as [pathlib]
      does on POSIX; assertions are enabled; what the scripts print is left
      out;
    - an output root is the set of its directories and the map of its
      files; [mkdir] and [copy2] are taken to find no file or directory of
      the other kind in their way, so what is proved of a run that makes
      directories or copies is stated of the runs that return. *)

From Stdlib Require Import ZArith NArith Lia List String Ascii Bool.
From Stdlib Require Import Floats.
From stdpp Require Import gmap list sorting.

Set Warnings "-inexact-float".
Open Scope Z_scope.

(** ** Exceptions *)

Inductive exn : Type :=
  | FileNotFoundError
  | UnicodeDecodeError
  | ValueError
  | IndexError
  | OverflowError
  | AssertionError
  | RuntimeError
  | OtherError.

Inductive result (A : Type) : Type :=
  | Ok (a : A)
  | Raise (e : exn).
Arguments Ok {A} a.
Arguments Raise {A} e.

Definition bind {A B} (r : result A) (k : A -> result B) : result B :=
  match r with
  | Ok a => k a
  | Raise e => Raise e
  end.

Notation "'let*' x ':=' r 'in' k" := (bind r (fun x => k))
  (at level 10, x pattern, r at level 200, k at level 200).

(** ** Python strings *)

Module Str.

Definition str := list N.

(** A literal, written as a Rocq string of ASCII characters. *)
Definition lit (s : string) : str := map N_of_ascii (list_ascii_of_string s).

Definition eqb (a b : str) : bool := bool_decide (a = b).

(** [str.isspace] on one code point: the Unicode white space characters. *)
Definition isspace (c : N) : bool :=
  ((9 <=? c) && (c <=? 13) || (28 <=? c) && (c <=? 32)
   || (c =? 133) || (c =? 160) || (c =? 5760)
   || (8192 <=? c) && (c <=? 8202)
   || (c =? 8232) || (c =? 8233) || (c =? 8239) || (c =? 8287)
   || (c =? 12288))%N.

Fixpoint lstrip (s : str) : str :=
  match s with
  | [] => []
  | c :: s' => if isspace c then lstrip s' else s
  end.

Definition rstrip (s : str) : str := rev (lstrip (rev s)).

(** Strings of white space only. *)
Definition spaces (ws : str) : Prop := Forall (fun c => isspace c = true) ws.

(** [s.strip()] *)
Definition strip (s : str) : str := rstrip (lstrip s).

(** [s.split()]: the maximal runs of non-space characters, in order.
    [cur] is the run being read, last character first. *)
Fixpoint split_from (cur : str) (s : str) : list str :=
  match s with
  | [] => match cur with [] => [] | _ => [rev cur] end
  | c :: s' =>
      if isspace c
      then match cur with
           | [] => split_from [] s'
           | _ => rev cur :: split_from [] s'
           end
      else split_from (c :: cur) s'
  end.

Definition split (s : str) : list str := split_from [] s.

(** [s.lower()] on the ASCII letters; no other code point lowers to a
    character of [".jpg"], [".jpeg"] or [".png"], the only strings a
    lowered suffix is compared with. *)
Definition lower_char (c : N) : N :=
  (if (65 <=? c) && (c <=? 90) then c + 32 else c)%N.

Definition lower (s : str) : str := map lower_char s.

(** [s.rfind(c)], [None] for -1. *)
Fixpoint rfind (c : N) (s : str) : option nat :=
  match s with
  | [] => None
  | x :: s' =>
      match rfind c s' with
      | Some i => Some (S i)
      | None => if (x =? c)%N then Some O else None
      end
  end.

Definition endswith (s suf : str) : bool :=
  eqb (drop (length s - length suf)%nat s) suf
  && bool_decide (length suf <= length s)%nat.

End Str.

Abbreviation str := Str.str.

(** ** Paths: [pathlib.PurePath.suffix], [.stem], [.with_suffix] and
    [Path.glob] with a ["*<ext>"] pattern, on the final path component *)

Module Path.

Definition dot : N := 46%N.

(** The index [i] of the last dot when [0 < i < len(name) - 1]: a leading
    or a trailing dot starts no suffix. *)
Definition split_point (name : str) : option nat :=
  match Str.rfind dot name with
  | Some i =>
      if (0 <? i)%nat && (i <? length name - 1)%nat then Some i else None
  | None => None
  end.

Definition suffix (name : str) : str :=
  match split_point name with
  | Some i => drop i name
  | None => []
  end.

Definition stem (name : str) : str :=
  match split_point name with
  | Some i => take i name
  | None => name
  end.

Definition with_suffix (name ext : str) : str := stem name ++ ext.

(** [fnmatch] of a name against ["*" + ext], case-sensitive as on POSIX. *)
Definition glob_star (ext : str) (name : str) : bool := Str.endswith name ext.

End Path.

(** ** Floating point: the comparisons of the scripts as propositions *)

Module Flt.

Definition le (a b : float) : Prop := (a <=? b)%float = true.
Definition lt (a b : float) : Prop := (a <? b)%float = true.

(** [lo <= x <= hi], a chained comparison. *)
Definition between (lo x hi : float) : bool := ((lo <=? x) && (x <=? hi))%float.

(** [lo < x <= hi] *)
Definition between_ex (lo x hi : float) : bool := ((lo <? x) && (x <=? hi))%float.

End Flt.

(** ** Files and the external libraries *)

Definition bytes := list Byte.byte.

(** The regular files of one directory, in [iterdir] order. *)
Definition dir := list (str * bytes).

Fixpoint lookup_file (d : dir) (name : str) : option bytes :=
  match d with
  | [] => None
  | (n, b) :: d' => if Str.eqb n name then Some b else lookup_file d' name
  end.

(** [path.exists()] *)
Definition exists_file (d : dir) (name : str) : bool :=
  match lookup_file d name with Some _ => true | None => false end.

(** [path.open("rb").read()] *)
Definition read_bytes (d : dir) (name : str) : result bytes :=
  match lookup_file d name with
  | Some b => Ok b
  | None => Raise FileNotFoundError
  end.

(** What the scripts call in the interpreter and in third-party packages. *)
Record Lib : Type := {
  (** the UTF-8 codec of [open(..., encoding="utf-8")] *)
  utf8_decode : bytes -> result str;
  (** [int(s)] and [float(s)] *)
  int_of_str : str -> result Z;
  float_of_str : str -> result float;
  (** [hashlib.md5(data).hexdigest()] *)
  md5_hexdigest : bytes -> str;
  (** [cv2.imread]: an array, or [None] for a file it cannot decode *)
  cv_image : Type;
  cv_imread : bytes -> result (option cv_image);
  (** [float(np.mean(cv2.cvtColor(img, cv2.COLOR_BGR2GRAY)))] *)
  cv_gray_mean : cv_image -> result float;
  (** Pillow *)
  pil_image : Type;
  pil_open : bytes -> result pil_image;
  pil_is_rgb : pil_image -> bool;
  pil_convert_rgb : pil_image -> result pil_image;
  pil_brightness : pil_image -> float -> result pil_image;
  pil_contrast : pil_image -> float -> result pil_image;
  pil_sharpen : pil_image -> result pil_image;
  pil_save : pil_image -> Z -> result bytes;
}.

(** ** Label files: [validate_bounding_boxes] *)

Module Labels.

Definition LF : N := 10%N.
Definition CR : N := 13%N.

(** Text mode with [newline=None]: ["\r\n"] and a lone ["\r"] read as ["\n"]. *)
Fixpoint universal_newlines (s : str) : str :=
  match s with
  | [] => []
  | c :: s' =>
      if (c =? CR)%N
      then LF :: match s' with
                 | d :: s'' =>
                     if (d =? LF)%N then universal_newlines s''
                     else universal_newlines s'
                 | [] => []
                 end
      else c :: universal_newlines s'
  end.

(** The lines of a text, each with its terminator; [cur] is the line being
    read, last character first. *)
Fixpoint lines_from (cur : str) (s : str) : list str :=
  match s with
  | [] => match cur with [] => [] | _ => [rev cur] end
  | c :: s' =>
      if (c =? LF)%N then rev (c :: cur) :: lines_from [] s'
      else lines_from (c :: cur) s'
  end.

(** [f.readlines()] on the decoded contents of the file. *)
Definition readlines (text : str) : list str :=
  lines_from [] (universal_newlines text).

Section Validate.
Context (lib : Lib).

(** The three range tests on the parsed numbers of one line; [false] is the
    [return False] of the first test that fails. *)
Definition box_checks (x_center y_center width height : float) : bool :=
  if negb (Flt.between 0 x_center 1 && Flt.between 0 y_center 1) then false
  else if negb (Flt.between_ex 0 width 1 && Flt.between_ex 0 height 1) then false
  else
    let x_min := (x_center - width / 2)%float in
    let x_max := (x_center + width / 2)%float in
    let y_min := (y_center - height / 2)%float in
    let y_max := (y_center + height / 2)%float in
    if negb (((0 <=? x_min) && (x_min <? x_max) && (x_max <=? 1))%float
             && ((0 <=? y_min) && (y_min <? y_max) && (y_max <=? 1))%float)
    then false
    else true.

(** The [try] block of the loop body: the five conversions, then the tests. *)
Definition parse_and_check (p0 p1 p2 p3 p4 : str) : result bool :=
  let* class_id := int_of_str lib p0 in
  let* x_center := float_of_str lib p1 in
  let* y_center := float_of_str lib p2 in
  let* width := float_of_str lib p3 in
  let* height := float_of_str lib p4 in
  Ok (box_checks x_center y_center width height).

(** One iteration of the loop: [true] to go on, [false] for [return False].
    A [ValueError] or [IndexError] is caught by the inner handler and any
    other exception by the outer one; both return [False]. *)
Definition check_line (line : str) : bool :=
  match Str.split (Str.strip line) with
  | [p0; p1; p2; p3; p4] =>
      match parse_and_check p0 p1 p2 p3 p4 with
      | Ok b => b
      | Raise ValueError | Raise IndexError => false
      | Raise _ => false
      end
  | _ => false
  end.

(** [for line in lines: ...; return True] *)
Fixpoint check_lines (lines : list str) : bool :=
  match lines with
  | [] => true
  | line :: rest => if check_line line then check_lines rest else false
  end.

Definition read_lines (d : dir) (label_path : str) : result (list str) :=
  let* raw := read_bytes d label_path in
  let* text := utf8_decode lib raw in
  Ok (readlines text).

Definition validate_bounding_boxes (d : dir) (label_path : str) : bool :=
  if negb (exists_file d label_path) then false
  else
    match read_lines d label_path with
    | Ok lines =>
        match lines with
        | [] => false
        | _ => check_lines lines
        end
    | Raise _ => false
    end.

(** *** The validity of a label record, as the specification words it *)

(** [x_center, y_center] in [[0,1]], [width, height] in [(0,1]], and the
    derived box inside [[0,1]] on both axes, its minimum below its maximum. *)
Record box_valid (x_center y_center width height : float) : Prop := {
  x_center_range : Flt.le 0 x_center /\ Flt.le x_center 1;
  y_center_range : Flt.le 0 y_center /\ Flt.le y_center 1;
  width_range : Flt.lt 0 width /\ Flt.le width 1;
  height_range : Flt.lt 0 height /\ Flt.le height 1;
  x_extent :
    Flt.le 0 (x_center - width / 2)%float
    /\ Flt.lt (x_center - width / 2)%float (x_center + width / 2)%float
    /\ Flt.le (x_center + width / 2)%float 1;
  y_extent :
    Flt.le 0 (y_center - height / 2)%float
    /\ Flt.lt (y_center - height / 2)%float (y_center + height / 2)%float
    /\ Flt.le (y_center + height / 2)%float 1;
}.

(** A line is an entry: exactly five tokens, an integer then four numbers,
    which form a valid box. *)
Definition line_valid (line : str) : Prop :=
  exists t0 t1 t2 t3 t4 class_id x_center y_center width height,
    Str.split line = [t0; t1; t2; t3; t4]
    /\ int_of_str lib t0 = Ok class_id
    /\ float_of_str lib t1 = Ok x_center
    /\ float_of_str lib t2 = Ok y_center
    /\ float_of_str lib t3 = Ok width
    /\ float_of_str lib t4 = Ok height
    /\ box_valid x_center y_center width height.

(** A label file is valid: it can be read, has a line, and every line is an
    entry. *)
Definition label_valid (d : dir) (label_path : str) : Prop :=
  exists raw text,
    lookup_file d label_path = Some raw
    /\ utf8_decode lib raw = Ok text
    /\ readlines text <> []
    /\ Forall line_valid (readlines text).

End Validate.

End Labels.

(** ** The cleaning pipeline: [clean_dataset] *)

Module Clean.

(** The statistics dictionary, one field per key. *)
Record stats : Type := {
  total_images : nat;
  duplicates_removed : nat;
  no_label_removed : nat;
  invalid_bbox_removed : nat;
  too_dark_removed : nat;
  too_bright_removed : nat;
  kept : nat;
  enhanced : nat;
}.

(** [stats[key] += 1] for each key the loop updates. *)
Definition incr_duplicates (s : stats) : stats :=
  {| total_images := total_images s;
     duplicates_removed := S (duplicates_removed s);
     no_label_removed := no_label_removed s;
     invalid_bbox_removed := invalid_bbox_removed s;
     too_dark_removed := too_dark_removed s;
     too_bright_removed := too_bright_removed s;
     kept := kept s;
     enhanced := enhanced s |}.

Definition incr_no_label (s : stats) : stats :=
  {| total_images := total_images s;
     duplicates_removed := duplicates_removed s;
     no_label_removed := S (no_label_removed s);
     invalid_bbox_removed := invalid_bbox_removed s;
     too_dark_removed := too_dark_removed s;
     too_bright_removed := too_bright_removed s;
     kept := kept s;
     enhanced := enhanced s |}.

Definition incr_invalid_bbox (s : stats) : stats :=
  {| total_images := total_images s;
     duplicates_removed := duplicates_removed s;
     no_label_removed := no_label_removed s;
     invalid_bbox_removed := S (invalid_bbox_removed s);
     too_dark_removed := too_dark_removed s;
     too_bright_removed := too_bright_removed s;
     kept := kept s;
     enhanced := enhanced s |}.

Definition incr_too_dark (s : stats) : stats :=
  {| total_images := total_images s;
     duplicates_removed := duplicates_removed s;
     no_label_removed := no_label_removed s;
     invalid_bbox_removed := invalid_bbox_removed s;
     too_dark_removed := S (too_dark_removed s);
     too_bright_removed := too_bright_removed s;
     kept := kept s;
     enhanced := enhanced s |}.

Definition incr_too_bright (s : stats) : stats :=
  {| total_images := total_images s;
     duplicates_removed := duplicates_removed s;
     no_label_removed := no_label_removed s;
     invalid_bbox_removed := invalid_bbox_removed s;
     too_dark_removed := too_dark_removed s;
     too_bright_removed := S (too_bright_removed s);
     kept := kept s;
     enhanced := enhanced s |}.

Definition incr_kept (s : stats) : stats :=
  {| total_images := total_images s;
     duplicates_removed := duplicates_removed s;
     no_label_removed := no_label_removed s;
     invalid_bbox_removed := invalid_bbox_removed s;
     too_dark_removed := too_dark_removed s;
     too_bright_removed := too_bright_removed s;
     kept := S (kept s);
     enhanced := enhanced s |}.

Definition incr_enhanced (s : stats) : stats :=
  {| total_images := total_images s;
     duplicates_removed := duplicates_removed s;
     no_label_removed := no_label_removed s;
     invalid_bbox_removed := invalid_bbox_removed s;
     too_dark_removed := too_dark_removed s;
     too_bright_removed := too_bright_removed s;
     kept := kept s;
     enhanced := S (enhanced s) |}.

(** The initial dictionary of a run over [n] images. *)
Definition init_stats (n : nat) : stats :=
  {| total_images := n;
     duplicates_removed := 0;
     no_label_removed := 0;
     invalid_bbox_removed := 0;
     too_dark_removed := 0;
     too_bright_removed := 0;
     kept := 0;
     enhanced := 0 |}.

(** The keyword arguments of [clean_dataset]. *)
Record config : Type := {
  min_brightness : float;
  max_brightness : float;
  apply_enhancement : bool;
  brightness_factor : float;
  contrast_factor : float;
  sharpen : bool;
}.

(** The defaults of the signature. *)
Definition default_config : config :=
  {| min_brightness := 30%float;
     max_brightness := 220%float;
     apply_enhancement := false;
     brightness_factor := 1.1%float;
     contrast_factor := 1.1%float;
     sharpen := true |}.

(** What the loop mutates: the statistics, the dictionary [seen_hashes]
    (digest to first path) and the files of the output directory. *)
Record state : Type := {
  st_stats : stats;
  seen_hashes : gmap str str;
  output : gmap str bytes;
}.

Definition with_stats (f : stats -> stats) (st : state) : state :=
  {| st_stats := f (st_stats st);
     seen_hashes := seen_hashes st;
     output := output st |}.

Definition with_seen (img_hash img_path : str) (st : state) : state :=
  {| st_stats := st_stats st;
     seen_hashes := <[img_hash := img_path]> (seen_hashes st);
     output := output st |}.

Definition with_output (out : gmap str bytes) (st : state) : state :=
  {| st_stats := st_stats st;
     seen_hashes := seen_hashes st;
     output := out |}.

Definition image_extensions : list str :=
  [Str.lit ".jpg"; Str.lit ".jpeg"; Str.lit ".png"].

(** [f.suffix.lower() in image_extensions] *)
Definition is_image (name : str) : bool :=
  existsb (Str.eqb (Str.lower (Path.suffix name))) image_extensions.

(** The list comprehension over [source_dir.iterdir()]. *)
Definition image_files (src : dir) : list str :=
  List.filter is_image (map fst src).

(** [source_dir / f"{img_path.stem}.txt"] *)
Definition label_of (img_path : str) : str :=
  Path.stem img_path ++ Str.lit ".txt".

(** The outcome of the [try] block of check 4. *)
Inductive brightness_verdict : Type :=
  | TooDark
  | TooBright
  | Passed.

Section Pipeline.
Context (lib : Lib) (cfg : config) (src : dir).

Definition calculate_image_hash (image_path : str) : result str :=
  let* data := read_bytes src image_path in
  Ok (md5_hexdigest lib data).

(** [cv2.imread(str(image_path))]: [None] also for a path it cannot open. *)
Definition imread (image_path : str) : result (option (cv_image lib)) :=
  match lookup_file src image_path with
  | Some data => cv_imread lib data
  | None => Ok None
  end.

Definition calculate_brightness (image_path : str) : result float :=
  let* img := imread image_path in
  match img with
  | None => Ok 0%float
  | Some array => cv_gray_mean lib array
  end.

(** The body of the [try] of [enhance_image], up to the bytes [img.save]
    writes. *)
Definition enhance_pipeline (data : bytes) : result bytes :=
  let* img := pil_open lib data in
  let* img := if negb (pil_is_rgb lib img)
              then pil_convert_rgb lib img else Ok img in
  let* img := if negb (brightness_factor cfg =? 1)%float
              then pil_brightness lib img (brightness_factor cfg) else Ok img in
  let* img := if negb (contrast_factor cfg =? 1)%float
              then pil_contrast lib img (contrast_factor cfg) else Ok img in
  let* img := if sharpen cfg then pil_sharpen lib img else Ok img in
  pil_save lib img 95.

(** [enhance_image]: the flag it returns and the output directory it leaves.
    Every exception is caught and reported as [False]. *)
Definition enhance_image (image_path output_path : str)
    (out : gmap str bytes) : bool * gmap str bytes :=
  match (let* data := read_bytes src image_path in enhance_pipeline data) with
  | Ok written => (true, <[output_path := written]> out)
  | Raise _ => (false, out)
  end.

(** [shutil.copy2(src, dst)] for a source file and an output name. *)
Definition copy2 (from to : str) (out : gmap str bytes)
    : result (gmap str bytes) :=
  let* data := read_bytes src from in
  Ok (<[to := data]> out).

(** Check 4: an exception inside the [try] is reported and the image goes on. *)
Definition check_brightness (img_path : str) : brightness_verdict :=
  match calculate_brightness img_path with
  | Ok brightness =>
      if (brightness <? min_brightness cfg)%float then TooDark
      else if (max_brightness cfg <? brightness)%float then TooBright
      else Passed
  | Raise _ => Passed
  end.

(** The image passed all checks: write it, copy its label, count it. *)
Definition accept (img_path label_path : str) (st : state) : result state :=
  let output_img_path := img_path in
  let output_label_path := label_path in
  let* st1 :=
    if apply_enhancement cfg
    then
      match enhance_image img_path output_img_path (output st) with
      | (true, out) => Ok (with_stats incr_enhanced (with_output out st))
      | (false, out) =>
          let* out' := copy2 img_path output_img_path out in
          Ok (with_output out' st)
      end
    else
      let* out' := copy2 img_path output_img_path (output st) in
      Ok (with_output out' st) in
  let* out2 := copy2 label_path output_label_path (output st1) in
  Ok (with_stats incr_kept (with_output out2 st1)).

(** The body of [for img_path in image_files]; each [continue] returns the
    state reached. *)
Definition process_image (st : state) (img_path : str) : result state :=
  let label_path := label_of img_path in
  if negb (exists_file src label_path)
  then Ok (with_stats incr_no_label st)
  else if negb (Labels.validate_bounding_boxes lib src label_path)
  then Ok (with_stats incr_invalid_bbox st)
  else
    let* img_hash := calculate_image_hash img_path in
    if bool_decide (is_Some (seen_hashes st !! img_hash))
    then Ok (with_stats incr_duplicates st)
    else
      let st := with_seen img_hash img_path st in
      match check_brightness img_path with
      | TooDark => Ok (with_stats incr_too_dark st)
      | TooBright => Ok (with_stats incr_too_bright st)
      | Passed => accept img_path label_path st
      end.

Fixpoint process_all (imgs : list str) (st : state) : result state :=
  match imgs with
  | [] => Ok st
  | img_path :: rest =>
      let* st' := process_image st img_path in
      process_all rest st'
  end.

(** The state before the loop; [out0] is what the output directory holds
    when the run starts. *)
Definition init_state (out0 : gmap str bytes) : state :=
  {| st_stats := init_stats (length (image_files src));
     seen_hashes := ∅;
     output := out0 |}.

Definition clean_dataset (out0 : gmap str bytes) : result state :=
  process_all (image_files src) (init_state out0).

(** [img_path] has a label file that [validate_bounding_boxes] accepts. *)
Definition labelled (img_path : str) : bool :=
  exists_file src (label_of img_path)
  && Labels.validate_bounding_boxes lib src (label_of img_path).

End Pipeline.

(** *** The outcomes of the decision procedure

    The six outcome counters, named as the specification names them. *)

Inductive outcome : Type :=
  | NoLabel
  | InvalidBbox
  | Duplicate
  | Dark
  | Bright
  | Kept.

#[export] Instance outcome_eq_dec : EqDecision outcome.
Proof. solve_decision. Defined.

Definition count (o : outcome) (s : stats) : nat :=
  match o with
  | NoLabel => no_label_removed s
  | InvalidBbox => invalid_bbox_removed s
  | Duplicate => duplicates_removed s
  | Dark => too_dark_removed s
  | Bright => too_bright_removed s
  | Kept => kept s
  end.

(** [s'] is [s] with one more image counted under [o], and under [o] only. *)
Definition counted (o : outcome) (s s' : stats) : Prop :=
  total_images s' = total_images s
  /\ forall o', count o' s' = if decide (o' = o) then S (count o' s) else count o' s.

Definition sum_of_outcomes (s : stats) : nat :=
  (no_label_removed s + invalid_bbox_removed s + duplicates_removed s
   + too_dark_removed s + too_bright_removed s + kept s)%nat.

End Clean.

(** ** Conversions between [int] and [float] *)

Module Num.

(** [float(n)] for the length of a list (below [2^63]), rounded to nearest. *)
Definition float_of_int (n : Z) : float := of_uint63 (Uint63.of_Z n).

(** [int(f)]: truncation toward zero; an infinity raises [OverflowError] and
    a NaN raises [ValueError]. *)
Definition int_of_float (f : float) : result Z :=
  match Prim2SF f with
  | S754_zero _ => Ok 0
  | S754_finite s m e => Ok (cond_Zopp s (Z.shiftl (Zpos m) e))
  | S754_infinity _ => Raise OverflowError
  | S754_nan => Raise ValueError
  end.

End Num.

(** ** The splitter: [split_dataset] *)

Module Split.

(** [random.Random]: the generator state, [seed] and [_randbelow]. *)
Record Random : Type := {
  rng_state : Type;
  rng_seed : Z -> rng_state;
  randbelow : rng_state -> nat -> nat * rng_state;
}.

(** [_randbelow(n)] returns an integer in [[0, n)]. *)
Definition randbelow_in_range (R : Random) : Prop :=
  forall g n, (0 < n)%nat -> (fst (randbelow R g n) < n)%nat.

(** Python compares strings code point by code point. *)
Fixpoint str_leb (a b : str) : bool :=
  match a, b with
  | [], _ => true
  | _ :: _, [] => false
  | x :: a', y :: b' =>
      if (x <? y)%N then true
      else if (y <? x)%N then false
      else str_leb a' b'
  end.

Fixpoint insert_sorted (p : str) (l : list str) : list str :=
  match l with
  | [] => [p]
  | q :: l' => if str_leb p q then p :: l else q :: insert_sorted p l'
  end.

(** [sorted(paths)] for paths of one directory. *)
Definition sorted (l : list str) : list str := foldr insert_sorted [] l.

(** [x[i], x[j] = x[j], x[i]] *)
Definition swap {A} (x : list A) (i j : nat) : result (list A) :=
  match x !! i, x !! j with
  | Some a, Some b => Ok (<[j := a]> (<[i := b]> x))
  | _, _ => Raise IndexError
  end.

(** A Python slice bound on a list of [len] items. *)
Definition clamp (len : nat) (i : Z) : nat :=
  if i <? 0 then Z.to_nat (Z.max 0 (Z.of_nat len + i))
  else Z.to_nat (Z.min i (Z.of_nat len)).

(** [l[:hi]], [l[lo:hi]] and [l[lo:]] *)
Definition slice_to {A} (l : list A) (hi : Z) : list A :=
  take (clamp (length l) hi) l.

Definition slice {A} (l : list A) (lo hi : Z) : list A :=
  take (clamp (length l) hi - clamp (length l) lo)%nat
       (drop (clamp (length l) lo) l).

Definition slice_from {A} (l : list A) (lo : Z) : list A :=
  drop (clamp (length l) lo) l.

(** The output root: the directories made and the files written, each by
    its path below the root. *)
Record tree : Type := {
  tree_dirs : gset (list str);
  tree_files : gmap (list str) bytes;
}.

(** A path and its ancestors, the root first. *)
Fixpoint ancestors (path : list str) : list (list str) :=
  [] :: match path with
        | [] => []
        | c :: path' => map (cons c) (ancestors path')
        end.

(** [path.mkdir(parents=True, exist_ok=True)] *)
Definition mkdir_p (path : list str) (t : tree) : tree :=
  {| tree_dirs := list_to_set (ancestors path) ∪ tree_dirs t;
     tree_files := tree_files t |}.

(** The local variables of [split_dataset] after the slicing. *)
Record plan : Type := {
  n_total : Z;
  n_train : Z;
  n_val : Z;
  n_test : Z;
  train_set : list (str * str);
  val_set : list (str * str);
  test_set : list (str * str);
}.

(** [x] is in one of the three lists and in no other. *)
Definition in_exactly_one {A} (x : A) (a b c : list A) : Prop :=
  (In x a /\ ~ In x b /\ ~ In x c)
  \/ (~ In x a /\ In x b /\ ~ In x c)
  \/ (~ In x a /\ ~ In x b /\ In x c).

Section Splitter.
Context (R : Random) (src : dir).

(** [for i in reversed(range(1, len(x))): j = randbelow(i + 1); swap];
    the argument counts the iterations left, the current [i]. *)
Fixpoint shuffle_loop {A} (i : nat) (g : rng_state R) (x : list A)
    : result (list A) :=
  match i with
  | O => Ok x
  | S i' =>
      let (j, g') := randbelow R g (S i) in
      let* x' := swap x i j in
      shuffle_loop i' g' x'
  end.

(** [random.seed(seed); random.shuffle(x)] *)
Definition shuffle {A} (seed : Z) (x : list A) : result (list A) :=
  shuffle_loop (length x - 1)%nat (rng_seed R seed) x.

(** [source_dir.glob(pattern)] for a pattern ["*<ext>"] *)
Definition glob (ext : str) : list str :=
  List.filter (Path.glob_star ext) (map fst src).

Definition image_paths : list str :=
  sorted (glob (Str.lit ".jpg") ++ glob (Str.lit ".jpeg")).

(** Only images with a matching [.txt] label are kept. *)
Fixpoint pair_up (paths : list str) : list (str * str) :=
  match paths with
  | [] => []
  | img_path :: rest =>
      let label_path := Path.with_suffix img_path (Str.lit ".txt") in
      if exists_file src label_path
      then (img_path, label_path) :: pair_up rest
      else pair_up rest
  end.

(** Lines 41 to 67: enumeration, pairing, shuffle, sizes and slices. *)
Definition plan_split (train_ratio val_ratio : float) (seed : Z) : result plan :=
  match image_paths with
  | [] => Raise RuntimeError
  | _ =>
      let valid_images := pair_up image_paths in
      match valid_images with
      | [] => Raise RuntimeError
      | _ =>
          let* valid_images := shuffle seed valid_images in
          let n_total := Z.of_nat (length valid_images) in
          let* n_train :=
            Num.int_of_float (Num.float_of_int n_total * train_ratio)%float in
          let* n_val :=
            Num.int_of_float (Num.float_of_int n_total * val_ratio)%float in
          let n_test := n_total - n_train - n_val in
          Ok {| n_total := n_total;
                n_train := n_train;
                n_val := n_val;
                n_test := n_test;
                train_set := slice_to valid_images n_train;
                val_set := slice valid_images n_train (n_train + n_val);
                test_set := slice_from valid_images (n_train + n_val) |}
      end
  end.

(** [shutil.copy2] from the source directory to a path below the root;
    on an exception the tree is left as it was. *)
Definition copy2 (from : str) (to : list str) (t : tree) : result tree :=
  let* data := read_bytes src from in
  Ok {| tree_dirs := tree_dirs t; tree_files := <[to := data]> (tree_files t) |}.

(** The copying loop of [prepare_split]: the exception that stopped it, if
    any, and the tree reached. *)
Fixpoint copy_pairs (img_out lbl_out : list str) (pairs : list (str * str))
    (t : tree) : option exn * tree :=
  match pairs with
  | [] => (None, t)
  | (img_p, lbl_p) :: rest =>
      match copy2 img_p (img_out ++ [img_p]) t with
      | Raise e => (Some e, t)
      | Ok t1 =>
          match copy2 lbl_p (lbl_out ++ [lbl_p]) t1 with
          | Raise e => (Some e, t1)
          | Ok t2 => copy_pairs img_out lbl_out rest t2
          end
      end
  end.

Definition prepare_split (split_name : str) (pairs : list (str * str))
    (t : tree) : option exn * tree :=
  let img_out := [split_name; Str.lit "images"] in
  let lbl_out := [split_name; Str.lit "labels"] in
  copy_pairs img_out lbl_out pairs (mkdir_p lbl_out (mkdir_p img_out t)).

(** The two assertions on the ratios. *)
Definition ratios_in_range (train_ratio val_ratio : float) : bool :=
  ((0 <? train_ratio) && (train_ratio <? 1)
   && ((0 <? val_ratio) && (val_ratio <? 1)))%float.

Definition ratios_sum_below_one (train_ratio val_ratio : float) : bool :=
  (train_ratio + val_ratio <? 1)%float.

(** [split_dataset]: the exception it raises, if any, and the output root
    it leaves, from the root [t0] it finds. *)
Definition split_dataset (train_ratio val_ratio : float) (seed : Z)
    (t0 : tree) : option exn * tree :=
  if negb (ratios_in_range train_ratio val_ratio) then (Some AssertionError, t0)
  else if negb (ratios_sum_below_one train_ratio val_ratio)
  then (Some AssertionError, t0)
  else
    match plan_split train_ratio val_ratio seed with
    | Raise e => (Some e, t0)
    | Ok p =>
        match prepare_split (Str.lit "train") (train_set p) t0 with
        | (Some e, t1) => (Some e, t1)
        | (None, t1) =>
            match prepare_split (Str.lit "val") (val_set p) t1 with
            | (Some e, t2) => (Some e, t2)
            | (None, t2) => prepare_split (Str.lit "test") (test_set p) t2
            end
        end
    end.

End Splitter.

End Split.

(** ** Stand-ins for the libraries, to run the scripts on concrete inputs

    Small executable instances of [Lib] and [Random].  They agree with the
    real libraries on the inputs used below: ASCII text, short decimal
    literals, and "images" whose bytes are their grey levels. *)

Module Sample.

Definition text (s : string) : bytes := list_byte_of_string s.
Definition pixels (l : list N) : bytes := omap Byte.of_N l.
Definition name := Str.lit.

Definition ascii_decode (raw : bytes) : result str :=
  if forallb (fun b => (Byte.to_N b <? 128)%N) raw
  then Ok (map Byte.to_N raw)
  else Raise UnicodeDecodeError.

Definition digit (c : N) : option Z :=
  if ((48 <=? c) && (c <=? 57))%N then Some (Z.of_N c - 48) else None.

Fixpoint digits_from (acc : Z) (s : str) : option Z :=
  match s with
  | [] => Some acc
  | c :: s' =>
      match digit c with
      | Some v => digits_from (10 * acc + v) s'
      | None => None
      end
  end.

(** A non-empty run of at most 15 decimal digits. *)
Definition natural (s : str) : option Z :=
  match s with
  | [] => None
  | _ => if (length s <=? 15)%nat then digits_from 0 s else None
  end.

Definition signed {A} (neg : A -> A) (f : str -> result A) (s : str) : result A :=
  match s with
  | 45%N :: s' => match f s' with Ok v => Ok (neg v) | Raise e => Raise e end
  | 43%N :: s' => f s'
  | _ => f s
  end.

Definition parse_int : str -> result Z :=
  signed Z.opp
    (fun s => match natural s with Some n => Ok n | None => Raise ValueError end).

Fixpoint cut_at_dot (s : str) : str * option str :=
  match s with
  | [] => ([], None)
  | c :: s' =>
      if (c =? Path.dot)%N then ([], Some s')
      else let (a, b) := cut_at_dot s' in (c :: a, b)
  end.

(** [digits] or [digits.digits]: the quotient of two integers that binary64
    holds exactly, hence the correctly rounded value of the literal. *)
Definition parse_float : str -> result float :=
  signed PrimFloat.opp
    (fun s =>
       match cut_at_dot s with
       | (a, None) =>
           match natural a with
           | Some n => Ok (Num.float_of_int n)
           | None => Raise ValueError
           end
       | (a, Some b) =>
           match natural (a ++ b), natural a, natural b with
           | Some n, Some _, Some _ =>
               Ok (Num.float_of_int n
                   / Num.float_of_int (10 ^ Z.of_nat (length b)))%float
           | _, _, _ => Raise ValueError
           end
       end).

(** The mean of the grey levels. *)
Definition mean (img : bytes) : result float :=
  Ok (Num.float_of_int (Z.of_N (foldr N.add 0%N (map Byte.to_N img)))
      / Num.float_of_int (Z.of_nat (length img)))%float.

(** A file that starts with byte 255 is one Pillow cannot open; a saved
    image gets a trailer, so it differs from its source. *)
Definition open_image (data : bytes) : result bytes :=
  match data with
  | Byte.xff :: _ => Raise OtherError
  | _ => Ok data
  end.

Definition lib : Lib :=
  {| utf8_decode := ascii_decode;
     int_of_str := parse_int;
     float_of_str := parse_float;
     md5_hexdigest := map Byte.to_N;
     cv_image := bytes;
     cv_imread := fun data =>
       match data with
       | [] | Byte.x00 :: _ => Ok None
       | _ => Ok (Some data)
       end;
     cv_gray_mean := mean;
     pil_image := bytes;
     pil_open := open_image;
     pil_is_rgb := fun _ => true;
     pil_convert_rgb := Ok;
     pil_brightness := fun img _ => Ok img;
     pil_contrast := fun img _ => Ok img;
     pil_sharpen := Ok;
     pil_save := fun img _ => Ok (img ++ [Byte.x5f]) |}.

(** A generator that counts: the [k]-th draw below [n] is [k mod n]. *)
Definition counter : Split.Random :=
  {| Split.rng_state := nat;
     Split.rng_seed := fun seed => Z.to_nat (Z.abs seed);
     Split.randbelow := fun g n => ((g mod n)%nat, S g) |}.

(** One valid entry: the whole image. *)
Definition full_box : bytes := text "0 0.5 0.5 1 1
".

(** Scenario A: three images, one without its label. *)
Definition dir_a : dir :=
  [ (name "a.jpg", pixels [100; 120]%N); (name "a.txt", full_box);
    (name "b.png", pixels [90; 130]%N);
    (name "c.JPG", pixels [80; 140]%N); (name "c.txt", full_box) ].

(** Scenario B: two images with the same bytes, both labelled. *)
Definition dir_b : dir :=
  [ (name "a.jpg", pixels [100; 120]%N); (name "a.txt", full_box);
    (name "b.jpg", pixels [100; 120]%N); (name "b.txt", full_box) ].

(** Scenario C: a labelled image of mean luminance 10. *)
Definition dir_c : dir :=
  [ (name "a.jpg", pixels [10; 10]%N); (name "a.txt", full_box) ].

(** Two images with the same bytes and a mean luminance of 10. *)
Definition dir_dark_twins : dir :=
  [ (name "a.jpg", pixels [10; 10]%N); (name "a.txt", full_box);
    (name "b.jpg", pixels [10; 10]%N); (name "b.txt", full_box) ].

(** A labelled file OpenCV cannot decode. *)
Definition dir_undecodable : dir :=
  [ (name "a.jpg", pixels [0; 1; 2]%N); (name "a.txt", full_box) ].

(** A labelled image Pillow cannot open. *)
Definition dir_unopenable : dir :=
  [ (name "a.jpg", pixels [255; 100]%N); (name "a.txt", full_box) ].

Definition enhancing : Clean.config :=
  {| Clean.min_brightness := 30%float;
     Clean.max_brightness := 220%float;
     Clean.apply_enhancement := true;
     Clean.brightness_factor := 1.1%float;
     Clean.contrast_factor := 1.1%float;
     Clean.sharpen := true |}.

(** Scenario D: ten labelled images. *)
Definition dir_d : dir :=
  flat_map
    (fun c => [ (c :: name ".jpg", pixels [100]%N); (c :: name ".txt", full_box) ])
    [48; 49; 50; 51; 52; 53; 54; 55; 56; 57]%N.

Definition empty_tree : Split.tree :=
  {| Split.tree_dirs := ∅; Split.tree_files := ∅ |}.

Definition stats_of (r : result Clean.state) : option Clean.stats :=
  match r with Ok st => Some (Clean.st_stats st) | Raise _ => None end.

End Sample.


(** * Properties *)

(** ** Label validation *)

Module LabelsFacts.
Import Labels.

(** *** Stripping a line does not change its tokens *)

Lemma split_from_spaces cur ws :
  Str.spaces ws ->
  Str.split_from cur ws = match cur with [] => [] | _ => [rev cur] end.
Proof.
  intros Hws. revert cur.
  induction Hws as [|c ws Hc _ IH]; intros cur; simpl; [reflexivity |].
  rewrite Hc. destruct cur; [apply (IH []) | now rewrite (IH [])].
Qed.

Lemma split_from_app_spaces cur s ws :
  Str.spaces ws -> Str.split_from cur (s ++ ws) = Str.split_from cur s.
Proof.
  intros Hws. revert cur. induction s as [|c s IH]; intros cur; simpl.
  - now apply split_from_spaces.
  - destruct (Str.isspace c); [| apply IH].
    destruct cur; now rewrite IH.
Qed.

Lemma lstrip_spaces s : exists ws, Str.spaces ws /\ s = ws ++ Str.lstrip s.
Proof.
  induction s as [|c s (ws & Hws & IH)]; simpl.
  - exists []. split; [constructor | reflexivity].
  - destruct (Str.isspace c) eqn:Hc.
    + exists (c :: ws). split; [now constructor | simpl; now f_equal].
    + exists []. split; [constructor | reflexivity].
Qed.

Lemma split_lstrip s : Str.split (Str.lstrip s) = Str.split s.
Proof.
  unfold Str.split. induction s as [|c s IH]; simpl; [reflexivity |].
  destruct (Str.isspace c) eqn:Hc; [exact IH |].
  simpl. now rewrite Hc.
Qed.

Lemma rstrip_spaces s : exists ws, Str.spaces ws /\ s = Str.rstrip s ++ ws.
Proof.
  destruct (lstrip_spaces (rev s)) as (ws & Hws & Hs).
  exists (rev ws). split; [now apply Forall_rev |].
  unfold Str.rstrip. rewrite <- rev_app_distr, <- Hs. symmetry. apply rev_involutive.
Qed.

(** [line.strip().split()] is [line.split()]. *)
Lemma split_strip s : Str.split (Str.strip s) = Str.split s.
Proof.
  unfold Str.strip. rewrite <- (split_lstrip s).
  destruct (rstrip_spaces (Str.lstrip s)) as (ws & Hws & Hs).
  rewrite Hs at 2. unfold Str.split. symmetry. now apply split_from_app_spaces.
Qed.

Section Validate.
Context (lib : Lib).

Lemma box_checks_valid x_center y_center width height :
  box_checks x_center y_center width height = true
  <-> box_valid x_center y_center width height.
Proof.
  unfold box_checks, Flt.between, Flt.between_ex. split.
  - intros H.
    repeat match type of H with
           | (if negb ?b then _ else _) = _ =>
               let E := fresh "E" in
               destruct b eqn:E; simpl in H; [| discriminate H]
           end.
    repeat match goal with
           | E : _ && _ = true |- _ => apply andb_true_iff in E; destruct E
           end.
    constructor; unfold Flt.le, Flt.lt; auto.
  - intros [[] [] [] [] (? & ? & ?) (? & ? & ?)]. unfold Flt.le, Flt.lt in *.
    repeat match goal with
           | E : ?c = true |- context [?c] => rewrite E
           end.
    reflexivity.
Qed.

Lemma check_line_valid line : check_line lib line = true <-> line_valid lib line.
Proof.
  unfold check_line, line_valid, parse_and_check. rewrite split_strip. split.
  - intros H.
    destruct (Str.split line) as [|t0 [|t1 [|t2 [|t3 [|t4 [|]]]]]];
      try discriminate H.
    destruct (int_of_str lib t0) as [c|] eqn:E0; simpl in H;
      [| destruct e; discriminate H].
    destruct (float_of_str lib t1) as [x|] eqn:E1; simpl in H;
      [| destruct e; discriminate H].
    destruct (float_of_str lib t2) as [y|] eqn:E2; simpl in H;
      [| destruct e; discriminate H].
    destruct (float_of_str lib t3) as [w|] eqn:E3; simpl in H;
      [| destruct e; discriminate H].
    destruct (float_of_str lib t4) as [h|] eqn:E4; simpl in H;
      [| destruct e; discriminate H].
    exists t0, t1, t2, t3, t4, c, x, y, w, h.
    rewrite <- box_checks_valid. auto 10.
  - intros (t0 & t1 & t2 & t3 & t4 & c & x & y & w & h
            & -> & -> & -> & -> & -> & -> & Hbox).
    simpl. now apply box_checks_valid.
Qed.

Lemma check_lines_valid lines :
  check_lines lib lines = true <-> Forall (line_valid lib) lines.
Proof.
  induction lines as [|line rest IH]; simpl.
  - split; [constructor | reflexivity].
  - rewrite Forall_cons, <- IH, <- check_line_valid.
    destruct (check_line lib line); intuition congruence.
Qed.

End Validate.

(** A text has no line exactly when it is empty. *)
Lemma lines_from_nil cur s : lines_from cur s = [] <-> cur = [] /\ s = [].
Proof.
  revert cur. induction s as [|c s IH]; intros cur; simpl.
  - destruct cur; intuition congruence.
  - destruct (c =? LF)%N; [intuition congruence |].
    rewrite IH. intuition congruence.
Qed.

Lemma readlines_nil text : readlines text = [] <-> text = [].
Proof.
  unfold readlines. rewrite lines_from_nil.
  destruct text as [|c s]; simpl; [intuition |].
  destruct (c =? CR)%N; intuition congruence.
Qed.

(** C1. [validate_bounding_boxes] returns [True] exactly for a label file
    that has at least one line and whose every line splits into exactly five
    white-space separated tokens, an integer then four numbers, with
    [x_center] and [y_center] in [[0,1]], [width] and [height] in [(0,1]],
    and the derived box within [[0,1]] on both axes with its minimum
    strictly below its maximum.  A file with no line is invalid, and so is
    one that is absent or cannot be decoded. *)
Theorem validate_bounding_boxes_iff_label_valid (lib : Lib) (d : dir) (label_path : str) :
  validate_bounding_boxes lib d label_path = true
  <-> label_valid lib d label_path.
Proof.
  unfold validate_bounding_boxes, label_valid, read_lines, exists_file, read_bytes.
  destruct (lookup_file d label_path) as [raw|]; simpl.
  - destruct (utf8_decode lib raw) as [text|] eqn:Hdec; simpl.
    + destruct (readlines text) as [|l ls] eqn:Hlines.
      * split; [discriminate |].
        intros (raw' & text' & Hraw & Hdec' & Hne & _).
        injection Hraw as <-. rewrite Hdec in Hdec'. injection Hdec' as <-.
        now rewrite Hlines in Hne.
      * rewrite check_lines_valid. split.
        -- intros Hall. exists raw, text. rewrite Hlines. now repeat split.
        -- intros (raw' & text' & Hraw & Hdec' & _ & Hall).
           injection Hraw as <-. rewrite Hdec in Hdec'. injection Hdec' as <-.
           now rewrite Hlines in Hall.
    + split; [discriminate |].
      intros (raw' & text' & Hraw & Hdec' & _).
      injection Hraw as <-. rewrite Hdec in Hdec'. discriminate Hdec'.
  - split; [discriminate |].
    intros (raw' & text' & Hraw & _). discriminate Hraw.
Qed.

(** *** Boundary cases of the range tests *)

(** The whole image: the box touches all four edges. *)
Example box_touching_the_edges : box_checks 0.5 0.5 1 1 = true.
Proof. vm_compute. reflexivity. Qed.

(** A centre on the left edge puts half of the box outside. *)
Example centre_on_the_edge : box_checks 0 0.5 0.5 0.5 = false.
Proof. vm_compute. reflexivity. Qed.

Example centre_in_the_corner : box_checks 1 1 0.5 0.5 = false.
Proof. vm_compute. reflexivity. Qed.

Example zero_width_box : box_checks 0.5 0.5 0 0.5 = false.
Proof. vm_compute. reflexivity. Qed.

(** A positive width that rounding absorbs: [0.5 - w/2] and [0.5 + w/2] are
    both [0.5], and the test [x_min < x_max] rejects the box. *)
Example width_lost_in_rounding : box_checks 0.5 0.5 1e-17 0.5 = false.
Proof. vm_compute. reflexivity. Qed.

Example not_a_number : box_checks nan 0.5 0.5 0.5 = false.
Proof. vm_compute. reflexivity. Qed.

Example entry_line : check_line Sample.lib (Str.lit "0  0.25 0.75	0.5 0.5 ") = true.
Proof. vm_compute. reflexivity. Qed.

Example four_tokens : check_line Sample.lib (Str.lit "0 0.5 0.5 1") = false.
Proof. vm_compute. reflexivity. Qed.

Example six_tokens : check_line Sample.lib (Str.lit "0 0.5 0.5 1 1 1") = false.
Proof. vm_compute. reflexivity. Qed.

Example class_not_an_integer : check_line Sample.lib (Str.lit "0.5 0.5 0.5 1 1") = false.
Proof. vm_compute. reflexivity. Qed.

Example blank_line : check_line Sample.lib (Str.lit "") = false.
Proof. vm_compute. reflexivity. Qed.

Example empty_label_file :
  validate_bounding_boxes Sample.lib [(Sample.name "a.txt", [])] (Sample.name "a.txt")
  = false.
Proof. vm_compute. reflexivity. Qed.

Example trailing_blank_line :
  validate_bounding_boxes Sample.lib
    [(Sample.name "a.txt", Sample.full_box ++ Sample.text " ")]
    (Sample.name "a.txt")
  = false.
Proof. vm_compute. reflexivity. Qed.

Example windows_line_ends :
  readlines (Str.lit "a" ++ [CR; LF] ++ Str.lit "b" ++ [CR] ++ Str.lit "c")
  = [Str.lit "a" ++ [LF]; Str.lit "b" ++ [LF]; Str.lit "c"].
Proof. vm_compute. reflexivity. Qed.

End LabelsFacts.

(** ** The cleaning pipeline *)

Module CleanFacts.
Import Clean.

Lemma eqb_eq (a b : str) : Str.eqb a b = true <-> a = b.
Proof. unfold Str.eqb. apply bool_decide_eq_true. Qed.

Lemma lookup_file_in (d : dir) (name : str) :
  In name (map fst d) -> exists data, lookup_file d name = Some data.
Proof.
  induction d as [|[n b] d IH]; simpl; [tauto |].
  intros [-> | Hin].
  - exists b. now rewrite (proj2 (eqb_eq name name) eq_refl).
  - destruct (Str.eqb n name); eauto.
Qed.

(** Every discovered image is a file of the source directory. *)
Lemma image_files_exist (src : dir) (img_path : str) :
  In img_path (image_files src) ->
  is_image img_path = true /\ exists data, lookup_file src img_path = Some data.
Proof.
  unfold image_files. rewrite filter_In. intros [Hin Himg].
  split; [exact Himg | now apply lookup_file_in].
Qed.

(** *** Each branch of the loop body counts the image once *)

Ltac counted_by_cases :=
  split; [reflexivity | intros o'; destruct o'; reflexivity].

Lemma counted_no_label s : counted NoLabel s (incr_no_label s).
Proof. counted_by_cases. Qed.

Lemma counted_invalid_bbox s : counted InvalidBbox s (incr_invalid_bbox s).
Proof. counted_by_cases. Qed.

Lemma counted_duplicate s : counted Duplicate s (incr_duplicates s).
Proof. counted_by_cases. Qed.

Lemma counted_too_dark s : counted Dark s (incr_too_dark s).
Proof. counted_by_cases. Qed.

Lemma counted_too_bright s : counted Bright s (incr_too_bright s).
Proof. counted_by_cases. Qed.

Lemma counted_kept s : counted Kept s (incr_kept s).
Proof. counted_by_cases. Qed.

Lemma counted_kept_enhanced s : counted Kept s (incr_kept (incr_enhanced s)).
Proof. counted_by_cases. Qed.

Lemma counted_sum o s s' :
  counted o s s' -> sum_of_outcomes s' = S (sum_of_outcomes s).
Proof.
  intros [_ H]. unfold sum_of_outcomes.
  pose proof (H NoLabel) as H1. pose proof (H InvalidBbox) as H2.
  pose proof (H Duplicate) as H3. pose proof (H Dark) as H4.
  pose proof (H Bright) as H5. pose proof (H Kept) as H6.
  simpl in *. destruct o;
    repeat match goal with
           | H : context [decide ?P] |- _ => destruct (decide P); try congruence
           end; lia.
Qed.

Section Pipeline.
Context (lib : Lib) (cfg : config) (src : dir).

Lemma copy2_ok from to out data :
  lookup_file src from = Some data ->
  copy2 src from to out = Ok (<[to := data]> out).
Proof. unfold copy2, read_bytes. now intros ->. Qed.

Lemma exists_file_lookup name :
  exists_file src name = true -> exists data, lookup_file src name = Some data.
Proof.
  unfold exists_file. destruct (lookup_file src name); [eauto | discriminate].
Qed.

(** The acceptance step, spelled out: what it writes and what it counts. *)
Lemma accept_ok img_path label_path st data ldata :
  lookup_file src img_path = Some data ->
  lookup_file src label_path = Some ldata ->
  exists written,
    accept lib cfg src img_path label_path st
    = Ok {| st_stats :=
              incr_kept (if apply_enhancement cfg
                            && fst (enhance_image lib cfg src img_path img_path (output st))
                         then incr_enhanced (st_stats st) else st_stats st);
            seen_hashes := seen_hashes st;
            output := <[label_path := ldata]> (<[img_path := written]> (output st)) |}
    /\ (apply_enhancement cfg
        && fst (enhance_image lib cfg src img_path img_path (output st)) = false
        -> written = data).
Proof.
  intros Himg Hlbl. unfold accept.
  destruct (apply_enhancement cfg); simpl.
  - unfold enhance_image, read_bytes. rewrite Himg. simpl.
    destruct (enhance_pipeline lib cfg data) as [w|e]; simpl.
    + rewrite (copy2_ok _ _ _ _ Hlbl). simpl.
      exists w. split; [reflexivity | discriminate].
    + rewrite (copy2_ok _ _ _ _ Himg). simpl.
      rewrite (copy2_ok _ _ _ _ Hlbl). simpl.
      exists data. split; reflexivity.
  - rewrite (copy2_ok _ _ _ _ Himg). simpl.
    rewrite (copy2_ok _ _ _ _ Hlbl). simpl.
    exists data. split; reflexivity.
Qed.

(** One iteration never raises on a discovered image, counts it under
    exactly one outcome, and counts it as enhanced only if it is kept and
    enhancement is on. *)
Lemma process_image_step st img_path :
  In img_path (image_files src) ->
  exists st' o,
    process_image lib cfg src st img_path = Ok st'
    /\ counted o (st_stats st) (st_stats st')
    /\ (enhanced (st_stats st') = enhanced (st_stats st)
        \/ (apply_enhancement cfg = true /\ o = Kept
            /\ enhanced (st_stats st') = S (enhanced (st_stats st)))).
Proof.
  intros Hin. destruct (image_files_exist _ _ Hin) as [_ [data Hdata]].
  unfold process_image.
  destruct (exists_file src (label_of img_path)) eqn:Hex; simpl.
  2:{ eexists _, NoLabel. split; [reflexivity |].
      split; [apply counted_no_label | now left]. }
  destruct (Labels.validate_bounding_boxes lib src (label_of img_path)); simpl.
  2:{ eexists _, InvalidBbox. split; [reflexivity |].
      split; [apply counted_invalid_bbox | now left]. }
  unfold calculate_image_hash, read_bytes. rewrite Hdata. simpl.
  destruct (bool_decide _).
  { eexists _, Duplicate. split; [reflexivity |].
    split; [apply counted_duplicate | now left]. }
  destruct (check_brightness lib cfg src img_path).
  - eexists _, Dark. split; [reflexivity |].
    split; [apply counted_too_dark | now left].
  - eexists _, Bright. split; [reflexivity |].
    split; [apply counted_too_bright | now left].
  - destruct (exists_file_lookup _ Hex) as [ldata Hldata].
    destruct (accept_ok img_path (label_of img_path)
                (with_seen (md5_hexdigest lib data) img_path st) data ldata
                Hdata Hldata) as (written & -> & _).
    eexists _, Kept. split; [reflexivity |]. simpl.
    destruct (apply_enhancement cfg); simpl.
    + destruct (fst _); simpl.
      * split; [apply counted_kept_enhanced | right; auto].
      * split; [apply counted_kept | now left].
    + split; [apply counted_kept | now left].
Qed.

(** The loop over any list of discovered images runs to its end; the total
    is not touched, the outcome counters grow by the number of images, and
    [enhanced] grows no more than [kept]. *)
Lemma process_all_run imgs st :
  Forall (fun p => In p (image_files src)) imgs ->
  exists st',
    process_all lib cfg src imgs st = Ok st'
    /\ total_images (st_stats st') = total_images (st_stats st)
    /\ sum_of_outcomes (st_stats st')
       = (sum_of_outcomes (st_stats st) + length imgs)%nat
    /\ (enhanced (st_stats st') + kept (st_stats st)
        <= kept (st_stats st') + enhanced (st_stats st))%nat
    /\ (enhanced (st_stats st) <= enhanced (st_stats st'))%nat
    /\ (apply_enhancement cfg = false ->
        enhanced (st_stats st') = enhanced (st_stats st)).
Proof.
  intros Hall. revert st.
  induction Hall as [|img_path rest Hin _ IH]; intros st; simpl.
  - exists st. repeat split; lia.
  - destruct (process_image_step st img_path Hin) as (st1 & o & -> & Hc & He).
    simpl. destruct (IH st1) as (st' & -> & Ht & Hs & Hk & Hm & Hoff).
    exists st'. split; [reflexivity |].
    pose proof (counted_sum _ _ _ Hc) as Hsum.
    destruct Hc as [Htot Hcount]. pose proof (Hcount Kept) as HK. simpl in HK.
    repeat split; try lia; try congruence.
    + destruct (decide (Kept = o)) as [Heq | Hne]; simpl in HK;
        destruct He as [He | (_ & Ho & He)]; try lia; congruence.
    + intros Hcfg. rewrite (Hoff Hcfg).
      destruct He as [He | (Hon & _)]; congruence.
Qed.

Lemma image_files_all :
  Forall (fun p => In p (image_files src)) (image_files src).
Proof. now apply List.Forall_forall. Qed.

End Pipeline.

(** C2. Every cleaning run ends, and at its end the statistics satisfy
    [total_images = no_label + invalid_bbox + duplicate + too_dark +
    too_bright + kept]; each source image adds exactly one to exactly one of
    these outcome counters. *)
Theorem stats_total_is_sum_of_outcomes (lib : Lib) (cfg : config) (src : dir)
    (out0 : gmap str bytes) :
  (exists st,
     clean_dataset lib cfg src out0 = Ok st
     /\ total_images (st_stats st)
        = (no_label_removed (st_stats st) + invalid_bbox_removed (st_stats st)
           + duplicates_removed (st_stats st) + too_dark_removed (st_stats st)
           + too_bright_removed (st_stats st) + kept (st_stats st))%nat)
  /\ (forall st img_path,
        In img_path (image_files src) ->
        exists st' o,
          process_image lib cfg src st img_path = Ok st'
          /\ counted o (st_stats st) (st_stats st')).
Proof.
  split.
  - unfold clean_dataset.
    destruct (process_all_run lib cfg src (image_files src) (init_state src out0)
                (image_files_all src)) as (st & Hrun & Ht & Hs & _).
    exists st. split; [exact Hrun |].
    change (total_images (st_stats st) = sum_of_outcomes (st_stats st)).
    rewrite Ht, Hs. reflexivity.
  - intros st img_path Hin.
    destruct (process_image_step lib cfg src st img_path Hin)
      as (st' & o & Hrun & Hc & _).
    eauto.
Qed.

(** C7. In every cleaning run [enhanced <= kept], and with enhancement
    disabled [enhanced = 0] at the end of the run. *)
Theorem enhanced_at_most_kept (lib : Lib) (cfg : config) (src : dir)
    (out0 : gmap str bytes) :
  exists st,
    clean_dataset lib cfg src out0 = Ok st
    /\ (enhanced (st_stats st) <= kept (st_stats st))%nat
    /\ (apply_enhancement cfg = false -> enhanced (st_stats st) = 0%nat).
Proof.
  unfold clean_dataset.
  destruct (process_all_run lib cfg src (image_files src) (init_state src out0)
              (image_files_all src)) as (st & Hrun & _ & _ & Hk & _ & Hoff).
  exists st. split; [exact Hrun |]. simpl in *. split; [lia |].
  intros Hcfg. now rewrite (Hoff Hcfg).
Qed.

(** *** Paths of images and of their labels *)

Lemma stem_suffix (name : str) : Path.stem name ++ Path.suffix name = name.
Proof.
  unfold Path.stem, Path.suffix. destruct (Path.split_point name).
  - apply take_drop.
  - apply app_nil_r.
Qed.

(** The label of an image is another file than the image. *)
Lemma label_of_ne (img_path : str) :
  is_image img_path = true -> label_of img_path <> img_path.
Proof.
  intros Himg Heq. unfold label_of in Heq.
  rewrite <- (stem_suffix img_path) in Heq at 2.
  apply app_inv_head in Heq. unfold is_image in Himg.
  rewrite <- Heq in Himg. vm_compute in Himg. discriminate Himg.
Qed.

(** An image with a valid label whose digest was seen is a duplicate. *)
Lemma first_matching_rule_seen (lib : Lib) (cfg : config) (src : dir)
    (st : state) (img_path img_hash : str) :
  labelled lib src img_path = true ->
  calculate_image_hash lib src img_path = Ok img_hash ->
  is_Some (seen_hashes st !! img_hash) ->
  exists st',
    process_image lib cfg src st img_path = Ok st'
    /\ counted Duplicate (st_stats st) (st_stats st')
    /\ seen_hashes st' = seen_hashes st /\ output st' = output st.
Proof.
  unfold process_image, labelled.
  intros [-> ->]%andb_true_iff -> Hseen. simpl.
  rewrite bool_decide_eq_true_2 by exact Hseen.
  eexists. split; [reflexivity |].
  split; [apply counted_duplicate | split; reflexivity].
Qed.

(** C5. The checks run in the order missing label, invalid boxes,
    duplicate, brightness, and the first that matches decides: an image
    without a label file is counted as [no_label] only, whatever its
    contents; an image with an invalid label file as [invalid_bbox] only;
    neither touches the digests seen nor the output directory.  An image
    with a valid label whose digest was seen is counted as [duplicate]
    only, and otherwise the brightness verdict decides. *)
Theorem first_matching_rule_decides (lib : Lib) (cfg : config) (src : dir)
    (st : state) (img_path : str) :
  (exists_file src (label_of img_path) = false ->
   exists st',
     process_image lib cfg src st img_path = Ok st'
     /\ counted NoLabel (st_stats st) (st_stats st')
     /\ seen_hashes st' = seen_hashes st /\ output st' = output st)
  /\ (exists_file src (label_of img_path) = true ->
      Labels.validate_bounding_boxes lib src (label_of img_path) = false ->
      exists st',
        process_image lib cfg src st img_path = Ok st'
        /\ counted InvalidBbox (st_stats st) (st_stats st')
        /\ seen_hashes st' = seen_hashes st /\ output st' = output st)
  /\ (forall img_hash,
        labelled lib src img_path = true ->
        calculate_image_hash lib src img_path = Ok img_hash ->
        is_Some (seen_hashes st !! img_hash) ->
        exists st',
          process_image lib cfg src st img_path = Ok st'
          /\ counted Duplicate (st_stats st) (st_stats st')
          /\ seen_hashes st' = seen_hashes st /\ output st' = output st)
  /\ (forall img_hash,
        labelled lib src img_path = true ->
        calculate_image_hash lib src img_path = Ok img_hash ->
        seen_hashes st !! img_hash = None ->
        check_brightness lib cfg src img_path <> Passed ->
        exists st',
          process_image lib cfg src st img_path = Ok st'
          /\ counted (match check_brightness lib cfg src img_path with
                      | TooDark => Dark
                      | _ => Bright
                      end) (st_stats st) (st_stats st')
          /\ output st' = output st).
Proof.
  unfold process_image, labelled. repeat split.
  - intros ->. simpl. eexists. split; [reflexivity |].
    split; [apply counted_no_label | split; reflexivity].
  - intros -> ->. simpl. eexists. split; [reflexivity |].
    split; [apply counted_invalid_bbox | split; reflexivity].
  - intros img_hash Hl Hh Hseen.
    apply (first_matching_rule_seen lib cfg src st img_path img_hash Hl Hh Hseen).
  - intros img_hash [-> ->]%andb_true_iff -> Hseen Hv. simpl.
    rewrite bool_decide_eq_false_2 by (rewrite Hseen; now intros [? ?]).
    destruct (check_brightness lib cfg src img_path); [| | congruence].
    + eexists. split; [reflexivity |].
      split; [apply counted_too_dark | reflexivity].
    + eexists. split; [reflexivity |].
      split; [apply counted_too_bright | reflexivity].
Qed.

(** C6. An accepted image is counted as kept and its label file is copied
    byte for byte beside it.  When enhancement is enabled and fails, or is
    disabled, the output image is a byte-identical copy of the source and
    the image is not counted as enhanced.  Neither the iteration nor the run
    raises. *)
Theorem enhancement_failure_falls_back_to_copy (lib : Lib) (cfg : config)
    (src : dir) (st : state) (img_path : str) (data ldata : bytes) :
  In img_path (image_files src) ->
  lookup_file src img_path = Some data ->
  lookup_file src (label_of img_path) = Some ldata ->
  Labels.validate_bounding_boxes lib src (label_of img_path) = true ->
  seen_hashes st !! md5_hexdigest lib data = None ->
  check_brightness lib cfg src img_path = Passed ->
  exists st',
    process_image lib cfg src st img_path = Ok st'
    /\ kept (st_stats st') = S (kept (st_stats st))
    /\ output st' !! label_of img_path = Some ldata
    /\ (apply_enhancement cfg
        && fst (enhance_image lib cfg src img_path img_path (output st)) = false ->
        output st' !! img_path = Some data
        /\ enhanced (st_stats st') = enhanced (st_stats st))
    /\ (forall out0, exists st_end, clean_dataset lib cfg src out0 = Ok st_end).
Proof.
  intros Hin Hdata Hldata Hvalid Hfresh Hpass.
  destruct (image_files_exist _ _ Hin) as [Himg _].
  unfold process_image, exists_file, calculate_image_hash, read_bytes.
  rewrite Hldata, Hvalid, Hdata. simpl.
  rewrite bool_decide_eq_false_2 by (rewrite Hfresh; now intros [? ?]).
  rewrite Hpass.
  destruct (accept_ok lib cfg src img_path (label_of img_path)
              (with_seen (md5_hexdigest lib data) img_path st) data ldata
              Hdata Hldata) as (written & -> & Hw).
  eexists. split; [reflexivity |]. simpl in *.
  split; [now destruct (apply_enhancement cfg && _) |].
  split; [apply lookup_insert_eq |]. split.
  - intros Hfail. rewrite Hfail. split; [| reflexivity].
    rewrite lookup_insert_ne by now apply label_of_ne.
    rewrite (Hw Hfail). apply lookup_insert_eq.
  - intros out0. unfold clean_dataset.
    destruct (process_all_run lib cfg src (image_files src) (init_state src out0)
                (image_files_all src)) as (st_end & Hrun & _).
    eauto.
Qed.

(** *** The digests seen *)

Section Seen.
Context (lib : Lib) (cfg : config) (src : dir).

Lemma accept_seen img_path label_path st st' :
  accept lib cfg src img_path label_path st = Ok st' ->
  seen_hashes st' = seen_hashes st.
Proof.
  unfold accept. destruct (apply_enhancement cfg).
  - destruct (enhance_image _ _ _ _ _ _) as [[] out]; simpl.
    + destruct (copy2 _ _ _ _); simpl; [| discriminate].
      now intros [= <-].
    + destruct (copy2 src img_path _ _); simpl; [| discriminate].
      destruct (copy2 _ _ _ _); simpl; [| discriminate].
      now intros [= <-].
  - destruct (copy2 src img_path _ _); simpl; [| discriminate].
    destruct (copy2 _ _ _ _); simpl; [| discriminate].
    now intros [= <-].
Qed.

(** After one iteration the digests seen are those seen before, and that of
    the image if its label is valid. *)
Lemma process_image_seen st img_path st' h :
  process_image lib cfg src st img_path = Ok st' ->
  is_Some (seen_hashes st' !! h)
  <-> is_Some (seen_hashes st !! h)
      \/ (labelled lib src img_path = true
          /\ calculate_image_hash lib src img_path = Ok h).
Proof.
  unfold process_image, labelled.
  destruct (exists_file src (label_of img_path)); simpl.
  2:{ intros [= <-]. simpl. intuition discriminate. }
  destruct (Labels.validate_bounding_boxes lib src (label_of img_path)); simpl.
  2:{ intros [= <-]. simpl. intuition discriminate. }
  destruct (calculate_image_hash lib src img_path) as [h0|]; simpl;
    [| discriminate].
  destruct (bool_decide _) eqn:Hseen.
  - apply bool_decide_eq_true in Hseen. intros [= <-]. simpl.
    split; [now left |]. intros [H | [_ [= <-]]]; assumption.
  - intros Hrun.
    assert (seen_hashes st' = <[h0 := img_path]> (seen_hashes st)) as ->.
    { destruct (check_brightness lib cfg src img_path).
      - now injection Hrun as <-.
      - now injection Hrun as <-.
      - now rewrite (accept_seen _ _ _ _ Hrun). }
    rewrite lookup_insert_is_Some. split.
    + intros [<- | [_ H]]; [right; auto | now left].
    + intros [H | [_ [= <-]]]; [| now left].
      destruct (decide (h0 = h)); [now left | right; auto].
Qed.

Lemma process_all_app l1 l2 st :
  process_all lib cfg src (l1 ++ l2) st
  = bind (process_all lib cfg src l1 st) (process_all lib cfg src l2).
Proof.
  revert st. induction l1 as [|p l1 IH]; intros st; simpl; [reflexivity |].
  destruct (process_image lib cfg src st p); simpl; [apply IH | reflexivity].
Qed.

(** After a run over [imgs] the digests seen are those seen before and
    those of the images of [imgs] with a valid label. *)
Lemma process_all_seen imgs st st' h :
  process_all lib cfg src imgs st = Ok st' ->
  is_Some (seen_hashes st' !! h)
  <-> is_Some (seen_hashes st !! h)
      \/ exists x, In x imgs /\ labelled lib src x = true
                   /\ calculate_image_hash lib src x = Ok h.
Proof.
  revert st. induction imgs as [|p imgs IH]; intros st; simpl.
  - intros [= <-]. split; [now left |]. now intros [H | (x & [] & _)].
  - destruct (process_image lib cfg src st p) as [st1|] eqn:Hstep; simpl;
      [| discriminate].
    intros Hrun. rewrite (IH _ Hrun), (process_image_seen _ _ _ h Hstep).
    split.
    + intros [[H | [Hl Hh]] | (x & Hin & Hl & Hh)]; eauto 8.
    + intros [H | (x & [<- | Hin] & Hl & Hh)]; eauto 8.
Qed.

End Seen.

(** Byte-identical files have the same digest. *)
Lemma same_bytes_same_hash (lib : Lib) (src : dir) (a b : str) (data : bytes) :
  lookup_file src a = Some data ->
  lookup_file src b = Some data ->
  calculate_image_hash lib src a = Ok (md5_hexdigest lib data)
  /\ calculate_image_hash lib src b = Ok (md5_hexdigest lib data).
Proof.
  unfold calculate_image_hash, read_bytes. now intros -> ->.
Qed.

(** C3, as the code has it.  Among the labelled images of a run, the first
    with a given digest is never rejected by the duplicate rule, and it is
    kept exactly when it passes the brightness check; every later image with
    the same bytes and a valid label is counted as a duplicate, and as
    nothing else. *)
Theorem first_of_equal_images_passes_duplicate_rule (lib : Lib) (cfg : config)
    (src : dir) (out0 : gmap str bytes) (l1 l2 : list str) (a : str)
    (data : bytes) :
  image_files src = l1 ++ a :: l2 ->
  lookup_file src a = Some data ->
  labelled lib src a = true ->
  (forall x, In x l1 -> labelled lib src x = true ->
             calculate_image_hash lib src x <> Ok (md5_hexdigest lib data)) ->
  exists st1 st1',
    process_all lib cfg src l1 (init_state src out0) = Ok st1
    /\ process_image lib cfg src st1 a = Ok st1'
    /\ duplicates_removed (st_stats st1') = duplicates_removed (st_stats st1)
    /\ (kept (st_stats st1') = S (kept (st_stats st1))
        <-> check_brightness lib cfg src a = Passed)
    /\ forall l2a b l2b,
         l2 = l2a ++ b :: l2b ->
         lookup_file src b = Some data ->
         labelled lib src b = true ->
         exists st2 st2',
           process_all lib cfg src (l1 ++ a :: l2a) (init_state src out0) = Ok st2
           /\ process_image lib cfg src st2 b = Ok st2'
           /\ counted Duplicate (st_stats st2) (st_stats st2')
           /\ output st2' = output st2.
Proof.
  intros Hfiles Hdata Hlab Hfirst.
  pose proof (image_files_all src) as Hall. rewrite Hfiles in Hall.
  apply Forall_app in Hall as [Hall1 Hall2].
  apply Forall_cons in Hall2 as [Ha Hall2]. rewrite <- Hfiles in *.
  destruct (process_all_run lib cfg src l1 (init_state src out0) Hall1)
    as (st1 & Hrun1 & _).
  assert (seen_hashes st1 !! md5_hexdigest lib data = None) as Hfresh.
  { apply eq_None_not_Some. intros Hsome.
    apply (process_all_seen _ _ _ _ _ _ _ Hrun1) in Hsome.
    destruct Hsome as [Hsome | (x & Hin & Hl & Hh)].
    - simpl in Hsome. rewrite lookup_empty in Hsome. now destruct Hsome.
    - now apply (Hfirst x Hin Hl). }
  pose proof Hlab as Hlab'. unfold labelled in Hlab'.
  apply andb_true_iff in Hlab' as [Hex Hvalid].
  destruct (exists_file_lookup _ _ Hex) as [ldata Hldata].
  assert (exists st1', process_image lib cfg src st1 a = Ok st1'
            /\ duplicates_removed (st_stats st1') = duplicates_removed (st_stats st1)
            /\ (kept (st_stats st1') = S (kept (st_stats st1))
                <-> check_brightness lib cfg src a = Passed))
    as (st1' & Hstep & Hdup & Hkept).
  { unfold process_image, calculate_image_hash, read_bytes.
    rewrite Hex, Hvalid, Hdata. simpl.
    rewrite bool_decide_eq_false_2 by (rewrite Hfresh; now intros [? ?]).
    destruct (check_brightness lib cfg src a).
    - eexists. split; [reflexivity |]. simpl.
      split; [reflexivity |]. split; [lia | discriminate].
    - eexists. split; [reflexivity |]. simpl.
      split; [reflexivity |]. split; [lia | discriminate].
    - destruct (accept_ok lib cfg src a (label_of a)
                  (with_seen (md5_hexdigest lib data) a st1) data ldata
                  Hdata Hldata) as (written & -> & _).
      eexists. split; [reflexivity |]. simpl.
      destruct (apply_enhancement cfg && _); simpl; intuition reflexivity. }
  exists st1, st1'. repeat (split; [assumption |]).
  intros l2a b l2b -> Hb Hlabb.
  apply Forall_app in Hall2 as [Hall2a Hall2b].
  apply Forall_cons in Hall2b as [Hinb _].
  assert (Forall (fun p => In p (image_files src)) (l1 ++ a :: l2a)) as Hpre.
  { apply Forall_app. split; [assumption |]. now apply Forall_cons. }
  destruct (process_all_run lib cfg src _ (init_state src out0) Hpre)
    as (st2 & Hrun2 & _).
  assert (is_Some (seen_hashes st2 !! md5_hexdigest lib data)) as Hseen.
  { apply (process_all_seen _ _ _ _ _ _ _ Hrun2). right. exists a.
    split; [apply in_elt |]. split; [assumption |].
    apply (same_bytes_same_hash lib src a a data Hdata Hdata). }
  destruct (first_matching_rule_seen lib cfg src st2 b (md5_hexdigest lib data))
    as (st2' & Hstepb & Hc & _ & Hout); try assumption.
  { apply (same_bytes_same_hash lib src b b data Hb Hb). }
  exists st2, st2'. auto.
Qed.

(** The claim C3 fails where the twins are too dark: two byte-identical
    images, each with a valid label, and none of them is kept. *)
Lemma dark_twins_none_kept :
  lookup_file Sample.dir_dark_twins (Sample.name "a.jpg")
  = lookup_file Sample.dir_dark_twins (Sample.name "b.jpg")
  /\ labelled Sample.lib Sample.dir_dark_twins (Sample.name "a.jpg") = true
  /\ labelled Sample.lib Sample.dir_dark_twins (Sample.name "b.jpg") = true
  /\ Sample.stats_of
       (clean_dataset Sample.lib default_config Sample.dir_dark_twins ∅)
     = Some {| total_images := 2; duplicates_removed := 1;
               no_label_removed := 0; invalid_bbox_removed := 0;
               too_dark_removed := 1; too_bright_removed := 0;
               kept := 0; enhanced := 0 |}.
Proof. vm_compute. auto. Qed.

(** Scenario B: [a.jpg] passes the duplicate rule, [b.jpg] is its duplicate. *)
Lemma first_of_equal_images_witness :
  exists st1 st1',
    process_all Sample.lib default_config Sample.dir_b []
      (init_state Sample.dir_b ∅) = Ok st1
    /\ process_image Sample.lib default_config Sample.dir_b st1
         (Sample.name "a.jpg") = Ok st1'
    /\ duplicates_removed (st_stats st1') = duplicates_removed (st_stats st1)
    /\ (kept (st_stats st1') = S (kept (st_stats st1))
        <-> check_brightness Sample.lib default_config Sample.dir_b
              (Sample.name "a.jpg") = Passed)
    /\ forall l2a b l2b,
         [Sample.name "b.jpg"] = l2a ++ b :: l2b ->
         lookup_file Sample.dir_b b = Some (Sample.pixels [100; 120]%N) ->
         labelled Sample.lib Sample.dir_b b = true ->
         exists st2 st2',
           process_all Sample.lib default_config Sample.dir_b
             ([] ++ Sample.name "a.jpg" :: l2a) (init_state Sample.dir_b ∅)
           = Ok st2
           /\ process_image Sample.lib default_config Sample.dir_b st2 b = Ok st2'
           /\ counted Duplicate (st_stats st2) (st_stats st2')
           /\ output st2' = output st2.
Proof.
  apply (first_of_equal_images_passes_duplicate_rule Sample.lib default_config
           Sample.dir_b ∅ [] [Sample.name "b.jpg"] (Sample.name "a.jpg")
           (Sample.pixels [100; 120]%N)).
  - vm_compute. reflexivity.
  - vm_compute. reflexivity.
  - vm_compute. reflexivity.
  - intros x [].
Defined.

(** An image Pillow cannot open, with enhancement on: copied, kept, not
    enhanced. *)
Lemma enhancement_failure_witness :
  exists st',
    process_image Sample.lib Sample.enhancing Sample.dir_unopenable
      (init_state Sample.dir_unopenable ∅) (Sample.name "a.jpg") = Ok st'
    /\ kept (st_stats st') = 1%nat
    /\ output st' !! label_of (Sample.name "a.jpg") = Some Sample.full_box
    /\ output st' !! Sample.name "a.jpg" = Some (Sample.pixels [255; 100]%N)
    /\ enhanced (st_stats st') = 0%nat.
Proof.
  destruct (enhancement_failure_falls_back_to_copy Sample.lib Sample.enhancing
              Sample.dir_unopenable (init_state Sample.dir_unopenable ∅)
              (Sample.name "a.jpg") (Sample.pixels [255; 100]%N) Sample.full_box)
    as (st' & Hrun & Hkept & Hlabel & Hcopy & _).
  - vm_compute. left. reflexivity.
  - vm_compute. reflexivity.
  - vm_compute. reflexivity.
  - vm_compute. reflexivity.
  - vm_compute. reflexivity.
  - vm_compute. reflexivity.
  - exists st'. split; [exact Hrun |]. split; [exact Hkept |].
    split; [exact Hlabel |]. apply Hcopy. vm_compute. reflexivity.
Defined.

(** *** The brightness check on a file that cannot be decoded *)

(** When [cv2.imread] raises, or the conversion to grey does, the image
    passes the check. *)
Lemma brightness_exception_passes (lib : Lib) (cfg : config) (src : dir)
    (img_path : str) (e : exn) :
  calculate_brightness lib src img_path = Raise e ->
  check_brightness lib cfg src img_path = Passed.
Proof. unfold check_brightness. now intros ->. Qed.

(** When [cv2.imread] returns [None], the brightness is [0.0], and the
    image is too dark for any positive lower bound. *)
Lemma undecodable_is_too_dark (lib : Lib) (cfg : config) (src : dir)
    (img_path : str) :
  imread lib src img_path = Ok None ->
  (0 <? min_brightness cfg)%float = true ->
  check_brightness lib cfg src img_path = TooDark.
Proof.
  unfold check_brightness, calculate_brightness. intros -> Hmin. simpl.
  now rewrite Hmin.
Qed.

(** C4, on the code.  A labelled image that OpenCV cannot decode
    ([cv2.imread] returns [None]) is counted as too dark under the default
    bounds, and is not kept. *)
Theorem undecodable_image_counted_too_dark :
  imread Sample.lib Sample.dir_undecodable (Sample.name "a.jpg") = Ok None
  /\ labelled Sample.lib Sample.dir_undecodable (Sample.name "a.jpg") = true
  /\ check_brightness Sample.lib default_config Sample.dir_undecodable
       (Sample.name "a.jpg") = TooDark
  /\ Sample.stats_of
       (clean_dataset Sample.lib default_config Sample.dir_undecodable ∅)
     = Some {| total_images := 1; duplicates_removed := 0;
               no_label_removed := 0; invalid_bbox_removed := 0;
               too_dark_removed := 1; too_bright_removed := 0;
               kept := 0; enhanced := 0 |}.
Proof. vm_compute. auto. Qed.

(** *** The end-to-end scenarios of the specification *)

Example scenario_a :
  Sample.stats_of (Clean.clean_dataset Sample.lib Clean.default_config Sample.dir_a ∅)
  = Some {| Clean.total_images := 3; Clean.duplicates_removed := 0;
            Clean.no_label_removed := 1; Clean.invalid_bbox_removed := 0;
            Clean.too_dark_removed := 0; Clean.too_bright_removed := 0;
            Clean.kept := 2; Clean.enhanced := 0 |}.
Proof. vm_compute. reflexivity. Qed.

Example scenario_b :
  Sample.stats_of (clean_dataset Sample.lib default_config Sample.dir_b ∅)
  = Some {| total_images := 2; duplicates_removed := 1;
            no_label_removed := 0; invalid_bbox_removed := 0;
            too_dark_removed := 0; too_bright_removed := 0;
            kept := 1; enhanced := 0 |}.
Proof. vm_compute. reflexivity. Qed.

Example scenario_c :
  Sample.stats_of (clean_dataset Sample.lib default_config Sample.dir_c ∅)
  = Some {| total_images := 1; duplicates_removed := 0;
            no_label_removed := 0; invalid_bbox_removed := 0;
            too_dark_removed := 1; too_bright_removed := 0;
            kept := 0; enhanced := 0 |}
  /\ (exists st,
        clean_dataset Sample.lib default_config Sample.dir_c ∅ = Ok st
        /\ output st = ∅).
Proof. split; [vm_compute; reflexivity | eexists; split; reflexivity]. Qed.

End CleanFacts.

(** ** Binary64 arithmetic on the sizes of the splits

    The facts below are read off the specification of the primitive floats
    ([FloatAxioms]): the product of a list length and a ratio in [(0,1)] is a
    finite, non-negative number, so [int()] of it neither raises nor is
    negative. *)

Module NumFacts.

Lemma digits_bounds p :
  2 ^ (Zpos (digits2_pos p) - 1) <= Zpos p < 2 ^ Zpos (digits2_pos p).
Proof.
  induction p as [p IH | p IH |]; simpl digits2_pos.
  - rewrite Pos2Z.inj_succ. replace (Z.succ (Zpos (digits2_pos p)) - 1) with (Z.succ (Zpos (digits2_pos p) - 1)) by lia.
    rewrite !Z.pow_succ_r by lia. lia.
  - rewrite Pos2Z.inj_succ. replace (Z.succ (Zpos (digits2_pos p)) - 1) with (Z.succ (Zpos (digits2_pos p) - 1)) by lia.
    rewrite !Z.pow_succ_r by lia. lia.
  - simpl. lia.
Qed.

(** A bound on the magnitude bounds the number of digits. *)
Lemma digits_le_of_lt p k : 0 <= k -> Zpos p < 2 ^ k -> Zpos (digits2_pos p) <= k.
Proof.
  intros Hk Hlt. destruct (Z.le_gt_cases (Zpos (digits2_pos p)) k) as [|Hgt]; [assumption|].
  pose proof (digits_bounds p) as [Hlo _].
  assert (2 ^ k <= 2 ^ (Zpos (digits2_pos p) - 1)) by (apply Z.pow_le_mono_r; lia).
  lia.
Qed.

Lemma Zdigits2_le_of_lt m k : 0 <= m -> 0 <= k -> m < 2 ^ k -> Zdigits2 m <= k.
Proof.
  intros Hm Hk Hlt. destruct m as [|p|p]; simpl; [lia | now apply digits_le_of_lt | lia].
Qed.

Lemma Zdigits2_lt_pow m : 0 <= m -> m < 2 ^ Zdigits2 m.
Proof.
  intros Hm. destruct m as [|p|p]; simpl; [lia | apply digits_bounds | lia].
Qed.

Lemma Zdigits2_nonneg m : 0 <= Zdigits2 m.
Proof. destruct m; simpl; lia. Qed.

(** A right shift keeps a non-negative mantissa non-negative and does not
    grow it. *)
Lemma shr_1_bounds mrs : 0 <= shr_m mrs -> 0 <= shr_m (shr_1 mrs) <= shr_m mrs.
Proof.
  destruct mrs as [m r s]. simpl. intros Hm.
  destruct m as [|[p|p|]|p]; simpl; lia.
Qed.

Lemma iter_shr_1_bounds p mrs :
  0 <= shr_m mrs -> 0 <= shr_m (SpecFloat.iter_pos shr_1 p mrs) <= shr_m mrs.
Proof.
  revert mrs. induction p as [p IH | p IH |]; intros mrs Hm; simpl.
  - pose proof (shr_1_bounds mrs Hm) as H1.
    pose proof (IH (shr_1 mrs) ltac:(lia)) as H2.
    pose proof (IH (SpecFloat.iter_pos shr_1 p (shr_1 mrs)) ltac:(lia)) as H3. lia.
  - pose proof (IH mrs Hm) as H2.
    pose proof (IH (SpecFloat.iter_pos shr_1 p mrs) ltac:(lia)) as H3. lia.
  - now apply shr_1_bounds.
Qed.

Lemma shr_fexp_bounds m e l :
  0 <= m ->
  0 <= shr_m (fst (shr_fexp prec emax m e l)) <= m
  /\ snd (shr_fexp prec emax m e l) <= Z.max e (fexp prec emax (Zdigits2 m + e)).
Proof.
  intros Hm. unfold shr_fexp, shr.
  assert (shr_m (shr_record_of_loc m l) = m) as Hrec.
  { destruct l as [|[]]; reflexivity. }
  destruct (fexp prec emax (Zdigits2 m + e) - e) as [|p|p] eqn:Hn; simpl.
  - rewrite Hrec. lia.
  - pose proof (iter_shr_1_bounds p (shr_record_of_loc m l)) as H.
    rewrite Hrec in H. split; [apply H; lia | lia].
  - rewrite Hrec. lia.
Qed.

Lemma round_nearest_even_bounds m l :
  m <= round_nearest_even m l <= m + 1.
Proof.
  unfold round_nearest_even. destruct l as [|[]]; try lia.
  destruct (Z.even m); lia.
Qed.

Lemma Zdigits2_succ_le m d : 0 <= m -> Zdigits2 m <= d -> forall m', 0 <= m' <= m + 1 -> Zdigits2 m' <= d + 1.
Proof.
  intros Hm Hd m' Hm'.
  pose proof (Zdigits2_nonneg m) as Hd0.
  apply Zdigits2_le_of_lt; [lia | lia |].
  pose proof (Zdigits2_lt_pow m Hm) as Hlt.
  assert (2 ^ Zdigits2 m <= 2 ^ d) by (apply Z.pow_le_mono_r; lia).
  rewrite Z.pow_add_r by lia. lia.
Qed.

Definition emin64 : Z := -1074.

Lemma fexp_le x b : x - 53 <= b -> emin64 <= b -> fexp prec emax x <= b.
Proof. unfold fexp, SpecFloat.emin, prec, emax, emin64. lia. Qed.

Lemma binary_round_aux_finite s m e l d :
  0 <= m -> Zdigits2 m <= d ->
  Z.max e emin64 + 2 * d + 1 <= 971 ->
  binary_round_aux prec emax s m e l = S754_zero s
  \/ exists m' e', binary_round_aux prec emax s m e l = S754_finite s m' e'
                   /\ e' <= Z.max e emin64 + 2 * d + 1.
Proof.
  intros Hm Hd Hb. unfold binary_round_aux.
  pose proof (shr_fexp_bounds m e l Hm) as [Hm1 He1].
  destruct (shr_fexp prec emax m e l) as [mrs1 e1]. simpl in Hm1, He1.
  pose proof (round_nearest_even_bounds (shr_m mrs1) (loc_of_shr_record mrs1)) as Hr.
  set (m1 := round_nearest_even (shr_m mrs1) (loc_of_shr_record mrs1)) in *.
  pose proof (shr_fexp_bounds m1 e1 loc_Exact ltac:(lia)) as [Hm2 He2].
  destruct (shr_fexp prec emax m1 e1 loc_Exact) as [mrs2 e2]. simpl in Hm2, He2.
  pose proof (Zdigits2_nonneg m) as Hd0.
  assert (Zdigits2 m1 <= d + 1) as Hd1.
  { apply (Zdigits2_succ_le m d Hm Hd). lia. }
  pose proof (Zdigits2_nonneg m1) as Hd10.
  assert (e1 <= Z.max e emin64 + d) as He1'.
  { etransitivity; [exact He1 |]. apply Z.max_lub; [lia |]. apply fexp_le; lia. }
  assert (e2 <= Z.max e emin64 + 2 * d + 1) as He2'.
  { etransitivity; [exact He2 |]. apply Z.max_lub; [lia |]. apply fexp_le; lia. }
  destruct (shr_m mrs2) as [|p|p]; [now left | | lia].
  right. exists p, e2. split; [| exact He2'].
  replace (e2 <=? emax - prec) with true; [reflexivity |].
  symmetry. apply Z.leb_le. unfold emax, prec. lia.
Qed.

Lemma digits_iter_xO p d :
  Zpos (digits2_pos (Pos.iter xO p d)) = Zpos (digits2_pos p) + Zpos d.
Proof.
  induction d as [|d IH] using Pos.peano_ind.
  - simpl. lia.
  - rewrite Pos.iter_succ. simpl digits2_pos. lia.
Qed.

(** Zero, or finite with a positive sign and an exponent up to [bound]. *)
Definition small_nonneg (f : spec_float) (bound : Z) : Prop :=
  f = S754_zero false
  \/ exists m e, f = S754_finite false m e /\ e <= bound.

Lemma of_uint63_small i : small_nonneg (Prim2SF (of_uint63 i)) 127.
Proof.
  rewrite FloatAxioms.of_uint63_spec. pose proof (Uint63.to_Z_bounded i) as Hi.
  unfold Uint63.wB, Uint63.size in Hi. change (2 ^ Z.of_nat 63) with (2 ^ 63) in Hi.
  unfold binary_normalize.
  destruct (Uint63.to_Z i) as [|p|p]; [now left | | lia].
  unfold binary_round, shl_align.
  assert (Zpos (digits2_pos p) <= 63) as Hd.
  { apply digits_le_of_lt; lia. }
  set (ex' := fexp prec emax (Zpos (digits2_pos p) + 0)).
  assert (Hex' : ex' = Z.max (Zpos (digits2_pos p) - 53) (-1074)).
  { unfold ex', fexp, SpecFloat.emin, prec, emax. f_equal; lia. }
  destruct (ex' - 0) as [|q|q] eqn:Hq.
  - destruct (binary_round_aux_finite false (Zpos p) 0 loc_Exact 63)
      as [H | (m' & e' & H & He)]; simpl; unfold emin64; try lia.
    + now left.
    + right. exists m', e'. split; [exact H | unfold emin64 in He; lia].
  - destruct (binary_round_aux_finite false (Zpos p) 0 loc_Exact 63)
      as [H | (m' & e' & H & He)]; simpl; unfold emin64; try lia.
    + now left.
    + right. exists m', e'. split; [exact H | unfold emin64 in He; lia].
  - destruct (binary_round_aux_finite false (Zpos (Pos.iter xO p q)) ex' loc_Exact 63)
      as [H | (m' & e' & H & He)]; simpl; unfold emin64; try lia.
    + rewrite digits_iter_xO. lia.
    + now left.
    + right. exists m', e'. split; [exact H | unfold emin64 in He; lia].
Qed.

Lemma valid_digits x s m e :
  Prim2SF x = S754_finite s m e -> Zpos (digits2_pos m) <= 53.
Proof.
  intros Hx. pose proof (Prim2SF_valid x) as Hv. rewrite Hx in Hv.
  simpl in Hv. unfold bounded, canonical_mantissa in Hv.
  apply andb_true_iff in Hv as [Hc _]. apply Z.eqb_eq in Hc.
  unfold fexp, SpecFloat.emin, prec, emax in Hc. lia.
Qed.

Lemma zero_spec : Prim2SF 0 = S754_zero false.
Proof. reflexivity. Qed.

Lemma one_spec : Prim2SF 1 = S754_finite false 4503599627370496 (-52).
Proof. reflexivity. Qed.

Lemma ratio_shape r :
  (0 <? r)%float = true -> (r <? 1)%float = true ->
  exists m e, Prim2SF r = S754_finite false m e /\ e <= -52
              /\ Zpos (digits2_pos m) <= 53.
Proof.
  rewrite !FloatAxioms.ltb_spec, zero_spec, one_spec. unfold SFltb, SFcompare.
  destruct (Prim2SF r) as [s|s| |s m e] eqn:Hr; try discriminate.
  all: destruct s; try discriminate.
  intros _ Hlt.
  exists m, e. split; [reflexivity |].
  split; [| exact (valid_digits r _ _ _ Hr)].
  destruct (Z.compare_spec e (-52)); first [lia | discriminate Hlt].
Qed.

Lemma mul_small i r :
  (0 <? r)%float = true -> (r <? 1)%float = true ->
  small_nonneg (Prim2SF (of_uint63 i * r)%float) 971.
Proof.
  intros H0 H1. destruct (ratio_shape r H0 H1) as (my & ey & Hr & Hey & Hdy).
  rewrite FloatAxioms.mul_spec, Hr. unfold SF64mul, SFmul.
  destruct (of_uint63_small i) as [Hx | (mx & ex & Hx & Hex)].
  - rewrite Hx. now left.
  - pose proof (valid_digits _ _ _ _ Hx) as Hdx. rewrite Hx. simpl xorb.
    destruct (binary_round_aux_finite false (Zpos (mx * my)) (ex + ey) loc_Exact 106)
      as [H | (m' & e' & H & He)]; unfold emin64 in *; try lia.
    + simpl. apply digits_le_of_lt; [lia |].
      pose proof (digits_bounds mx) as [_ Hmx].
      pose proof (digits_bounds my) as [_ Hmy].
      assert (2 ^ Zpos (digits2_pos mx) <= 2 ^ 53) by (apply Z.pow_le_mono_r; lia).
      assert (2 ^ Zpos (digits2_pos my) <= 2 ^ 53) by (apply Z.pow_le_mono_r; lia).
      rewrite Pos2Z.inj_mul. change (2 ^ 106) with (2 ^ 53 * 2 ^ 53). nia.
    + now left.
    + right. exists m', e'. split; [exact H | lia].
Qed.

Lemma int_of_scaled_ok n r :
  (0 <? r)%float = true -> (r <? 1)%float = true ->
  exists k, Num.int_of_float (Num.float_of_int n * r)%float = Ok k /\ 0 <= k.
Proof.
  intros H0 H1. unfold Num.int_of_float, Num.float_of_int.
  destruct (mul_small (Uint63.of_Z n) r H0 H1) as [-> | (m & e & -> & _)].
  - exists 0. split; [reflexivity | lia].
  - eexists. split; [reflexivity |]. simpl. apply Z.shiftl_nonneg. lia.
Qed.

Lemma compare_cont_le_not_gt (p q : positive) :
  match PosDef.Pos.compare_cont Eq p q with Gt => false | _ => true end = true ->
  match PosDef.Pos.compare_cont Eq q p with Lt => true | _ => false end = false.
Proof.
  pose proof (Pos.compare_cont_antisym p q Eq) as H.
  change (CompOpp Eq) with Eq in H.
  change Pos.compare_cont with PosDef.Pos.compare_cont in H.
  rewrite <- H.
  destruct (PosDef.Pos.compare_cont Eq p q); simpl; intros E;
    first [discriminate E | reflexivity].
Qed.

Lemma le_one_not_lt s : (1 <=? s)%float = true -> (s <? 1)%float = false.
Proof.
  rewrite FloatAxioms.leb_spec, FloatAxioms.ltb_spec, one_spec.
  unfold SFleb, SFltb, SFcompare.
  destruct (Prim2SF s) as [b|b| |b m e].
  all: try (destruct b).
  all: try discriminate.
  all: try reflexivity.
  destruct (Z.compare_spec (-52) e) as [He | He | He];
    destruct (Z.compare_spec e (-52)) as [He' | He' | He'].
  all: try (exfalso; lia).
  all: try discriminate.
  all: try reflexivity.
  apply compare_cont_le_not_gt.
Qed.

(** [int()] of a positive finite number is the floor of its value
    [m * 2^e]. *)
Lemma int_of_float_floor f m e :
  Prim2SF f = S754_finite false m e ->
  exists k,
    Num.int_of_float f = Ok k
    /\ (0 <= e -> k = Zpos m * 2 ^ e)
    /\ (e < 0 -> k * 2 ^ (- e) <= Zpos m < (k + 1) * 2 ^ (- e)).
Proof.
  intros Hf. unfold Num.int_of_float. rewrite Hf. simpl cond_Zopp.
  eexists. split; [reflexivity |]. split.
  - intros He. now apply Z.shiftl_mul_pow2.
  - intros He. rewrite Z.shiftl_div_pow2 by lia.
    assert (0 < 2 ^ (- e)) as Hpos by (apply Z.pow_pos_nonneg; lia).
    pose proof (Z.mul_div_le (Zpos m) (2 ^ (- e)) Hpos).
    pose proof (Z.mul_succ_div_gt (Zpos m) (2 ^ (- e)) Hpos).
    lia.
Qed.

(** Ten pairs at a ratio of 0.7: the binary64 nearest to 0.7 is below
    7/10, the product rounds to 7.0, and [n_train] is 7. *)
Example ten_times_seven_tenths :
  Prim2SF 0.7 = S754_finite false 6305039478318694 (-53)
  /\ 10 * 6305039478318694 < 7 * 2 ^ 53
  /\ Num.int_of_float (Num.float_of_int 10 * 0.7)%float = Ok 7
  /\ Num.int_of_float (Num.float_of_int 10 * 0.15)%float = Ok 1.
Proof. vm_compute. auto. Qed.

End NumFacts.

(** ** How far rounding moves the sizes of the splits *)

Module NumBounds.
Import NumFacts.

(** *** Right shifts *)

(** One right shift halves a non-negative mantissa, rounding down. *)
Lemma shr_1_half mrs :
  0 <= shr_m mrs ->
  0 <= shr_m (shr_1 mrs)
  /\ 2 * shr_m (shr_1 mrs) <= shr_m mrs < 2 * shr_m (shr_1 mrs) + 2.
Proof.
  destruct mrs as [m r s]. simpl. intros Hm.
  destruct m as [|[p|p|]|p]; simpl; lia.
Qed.

Lemma iter_shr_1_floor p mrs :
  0 <= shr_m mrs ->
  0 <= shr_m (SpecFloat.iter_pos shr_1 p mrs)
  /\ shr_m (SpecFloat.iter_pos shr_1 p mrs) * 2 ^ Zpos p <= shr_m mrs
     < (shr_m (SpecFloat.iter_pos shr_1 p mrs) + 1) * 2 ^ Zpos p.
Proof.
  revert mrs. induction p as [p IH | p IH |]; intros mrs Hm; simpl SpecFloat.iter_pos.
  - destruct (shr_1_half mrs Hm) as [H0 H1].
    destruct (IH (shr_1 mrs) H0) as [H2 H3].
    destruct (IH (SpecFloat.iter_pos shr_1 p (shr_1 mrs)) H2) as [H4 H5].
    split; [exact H4 |].
    assert (0 < 2 ^ Zpos p) as Hpos by (apply Z.pow_pos_nonneg; lia).
    replace (Zpos p~1) with (Zpos p + Zpos p + 1) by lia.
    rewrite !Z.pow_add_r, Z.pow_1_r by lia. nia.
  - destruct (IH mrs Hm) as [H2 H3].
    destruct (IH (SpecFloat.iter_pos shr_1 p mrs) H2) as [H4 H5].
    split; [exact H4 |].
    assert (0 < 2 ^ Zpos p) as Hpos by (apply Z.pow_pos_nonneg; lia).
    replace (Zpos p~0) with (Zpos p + Zpos p) by lia.
    rewrite !Z.pow_add_r by lia. nia.
  - destruct (shr_1_half mrs Hm) as [H0 H1]. split; [exact H0 |].
    change (2 ^ 1) with 2. lia.
Qed.

(** [shr_fexp] on an exact mantissa: nothing when the exponent is already
    the one the format gives the number, else a floor division. *)
Lemma shr_fexp_exact m e :
  0 <= m ->
  let k := fexp prec emax (Zdigits2 m + e) - e in
  (k <= 0 ->
   shr_fexp prec emax m e loc_Exact
   = ({| shr_m := m; shr_r := false; shr_s := false |}, e))
  /\ (0 < k ->
      snd (shr_fexp prec emax m e loc_Exact) = e + k
      /\ 0 <= shr_m (fst (shr_fexp prec emax m e loc_Exact))
      /\ shr_m (fst (shr_fexp prec emax m e loc_Exact)) * 2 ^ k <= m
         < (shr_m (fst (shr_fexp prec emax m e loc_Exact)) + 1) * 2 ^ k).
Proof.
  intros Hm k. unfold shr_fexp, shr. fold k.
  destruct k as [|p|p] eqn:Hk; split; intros H; try lia; try reflexivity.
  simpl fst. simpl snd. split; [reflexivity |].
  exact (iter_shr_1_floor p {| shr_m := m; shr_r := false; shr_s := false |} Hm).
Qed.

(** *** Rounding *)

(** What [binary_round_aux] returns for an exact positive number
    [M * 2^E]: the number itself when no shift is needed; else a number on
    the grid of step [2^(E+k)], at most one step above it. *)
Lemma binary_round_aux_upper (M : positive) (E : Z) (m2 : positive) (e2 : Z) :
  binary_round_aux prec emax false (Zpos M) E loc_Exact = S754_finite false m2 e2 ->
  let k := fexp prec emax (Zpos (digits2_pos M) + E) - E in
  (k <= 0 -> m2 = M /\ e2 = E)
  /\ (0 < k -> E + k <= e2 /\ Zpos m2 * 2 ^ (e2 - E) <= Zpos M + 2 ^ k).
Proof.
  intros Hround k. unfold binary_round_aux in Hround.
  destruct (shr_fexp_exact (Zpos M) E ltac:(lia)) as [Hnone Hshift].
  change (Zdigits2 (Zpos M)) with (Zpos (digits2_pos M)) in Hnone, Hshift.
  fold k in Hnone, Hshift.
  split; intros Hk.
  - rewrite (Hnone Hk) in Hround. simpl in Hround.
    rewrite (Hnone Hk) in Hround. simpl in Hround.
    destruct (E <=? emax - prec); [| discriminate Hround].
    injection Hround as <- <-. now split.
  - destruct (Hshift Hk) as (He1 & Hm1 & Hlo & Hhi). clear Hnone Hshift.
    destruct (shr_fexp prec emax (Zpos M) E loc_Exact) as [mrs1 e1].
    simpl in He1, Hm1, Hlo, Hhi. subst e1.
    pose proof (round_nearest_even_bounds (shr_m mrs1) (loc_of_shr_record mrs1))
      as Hr.
    set (m1 := round_nearest_even (shr_m mrs1) (loc_of_shr_record mrs1)) in *.
    destruct (shr_fexp_exact m1 (E + k) ltac:(lia)) as [Hnone2 Hshift2].
    set (k2 := fexp prec emax (Zdigits2 m1 + (E + k)) - (E + k)) in *.
    assert (0 < 2 ^ k) as Hpk by (apply Z.pow_pos_nonneg; lia).
    destruct (Z.le_gt_cases k2 0) as [Hk2 | Hk2].
    + rewrite (Hnone2 Hk2) in Hround. simpl in Hround.
      destruct m1 as [|q|q]; [discriminate Hround | | discriminate Hround].
      destruct (E + k <=? emax - prec); [| discriminate Hround].
      injection Hround as <- <-. split; [lia |].
      replace (E + k - E) with k by lia. nia.
    + destruct (Hshift2 ltac:(lia)) as (He2 & Hm2 & Hlo2 & _). clear Hnone2 Hshift2.
      destruct (shr_fexp prec emax m1 (E + k) loc_Exact) as [mrs2 e2'].
      simpl in He2, Hm2, Hlo2. subst e2'.
      destruct (shr_m mrs2) as [|q|q]; [discriminate Hround | | discriminate Hround].
      destruct (E + k + k2 <=? emax - prec); [| discriminate Hround].
      injection Hround as <- <-. split; [lia |].
      replace (E + k + k2 - E) with (k2 + k) by lia.
      rewrite Z.pow_add_r by lia.
      assert (0 < 2 ^ k2) as Hpk2 by (apply Z.pow_pos_nonneg; lia).
      nia.
Qed.

Lemma binary_round_aux_exact (M : positive) (E : Z) :
  fexp prec emax (Zpos (digits2_pos M) + E) - E <= 0 ->
  E <= emax - prec ->
  binary_round_aux prec emax false (Zpos M) E loc_Exact = S754_finite false M E.
Proof.
  intros Hk HE. unfold binary_round_aux.
  destruct (shr_fexp_exact (Zpos M) E ltac:(lia)) as [Hnone _].
  change (Zdigits2 (Zpos M)) with (Zpos (digits2_pos M)) in Hnone.
  rewrite (Hnone Hk). simpl. rewrite (Hnone Hk). simpl.
  replace (E <=? emax - prec) with true; [reflexivity |].
  symmetry. now apply Z.leb_le.
Qed.

(** *** The float of a small integer *)

Lemma iter_xO_value p d : Zpos (Pos.iter xO p d) = Zpos p * 2 ^ Zpos d.
Proof.
  induction d as [|d IH] using Pos.peano_ind.
  - simpl. lia.
  - rewrite Pos.iter_succ, Pos2Z.inj_xO, IH, Pos2Z.inj_succ, Z.pow_succ_r by lia.
    lia.
Qed.

(** [float(n)] is exact below [2^53]: a mantissa [n * 2^s] of 53 digits
    and the exponent [- s]. *)
Lemma float_of_int_exact n :
  0 < n < 2 ^ 53 ->
  exists mx ex,
    Prim2SF (Num.float_of_int n) = S754_finite false mx ex
    /\ -52 <= ex <= 0
    /\ Zpos mx = n * 2 ^ (- ex).
Proof.
  intros Hn. unfold Num.float_of_int.
  rewrite FloatAxioms.of_uint63_spec, Uint63.of_Z_spec.
  rewrite Z.mod_small
    by (unfold Uint63.wB, Uint63.size; change (2 ^ Z.of_nat 63) with (2 ^ 63); lia).
  destruct n as [|p|p]; try lia.
  unfold binary_normalize, binary_round, shl_align.
  pose proof (digits_le_of_lt p 53 ltac:(lia) ltac:(lia)) as Hd.
  assert (0 < Zpos (digits2_pos p)) as Hd0 by lia.
  assert (fexp prec emax (Zpos (digits2_pos p) + 0) = Zpos (digits2_pos p) - 53)
    as ->.
  { unfold fexp, SpecFloat.emin, prec, emax. lia. }
  destruct (Zpos (digits2_pos p) - 53 - 0) as [|q|q] eqn:Hq; try lia.
  - exists p, 0. rewrite binary_round_aux_exact.
    + split; [reflexivity |]. split; [lia |]. simpl. lia.
    + unfold fexp, SpecFloat.emin, prec, emax. lia.
    + unfold prec, emax. lia.
  - exists (Pos.iter xO p q), (Zpos (digits2_pos p) - 53).
    rewrite binary_round_aux_exact.
    + split; [reflexivity |]. split; [lia |].
      rewrite iter_xO_value. f_equal. f_equal. lia.
    + pose proof (digits_iter_xO p q) as Hdq.
      unfold fexp, SpecFloat.emin, prec, emax. lia.
    + unfold prec, emax. lia.
Qed.

(** *** A ratio and the product with it *)

Lemma compare_cont_lt (p q : positive) :
  match PosDef.Pos.compare_cont Eq p q with Lt => true | _ => false end = true ->
  Zpos p < Zpos q.
Proof.
  intros H. apply Pos2Z.pos_lt_pos. unfold Pos.lt, Pos.compare.
  change Pos.compare_cont with PosDef.Pos.compare_cont.
  destruct (PosDef.Pos.compare_cont Eq p q); first [reflexivity | discriminate H].
Qed.

Lemma ltb_finite m e m' e' :
  SFltb (S754_finite false m e) (S754_finite false m' e') = true ->
  e < e' \/ (e = e' /\ Zpos m < Zpos m').
Proof.
  unfold SFltb, SFcompare.
  destruct (Z.compare_spec e e') as [Heq | Hlt | Hgt]; intros H.
  - right. split; [exact Heq |]. now apply compare_cont_lt.
  - now left.
  - discriminate H.
Qed.

(** A float strictly between 0 and 1 is [m * 2^e] with [m < 2^(-e)]. *)
Lemma ratio_value r :
  (0 <? r)%float = true -> (r <? 1)%float = true ->
  exists m e, Prim2SF r = S754_finite false m e /\ e <= -52
              /\ Zpos m < 2 ^ (- e).
Proof.
  intros H0 H1. destruct (ratio_shape r H0 H1) as (m & e & Hr & He & Hd).
  exists m, e. split; [exact Hr |]. split; [exact He |].
  rewrite FloatAxioms.ltb_spec, one_spec, Hr in H1.
  unfold SFltb, SFcompare in H1.
  destruct (Z.compare_spec e (-52)) as [Heq | Hlt | Hgt].
  - apply compare_cont_lt in H1. rewrite Heq.
    change (2 ^ (- -52)) with 4503599627370496. exact H1.
  - pose proof (digits_bounds m) as [_ Hm].
    assert (2 ^ Zpos (digits2_pos m) <= 2 ^ 53) by (apply Z.pow_le_mono_r; lia).
    assert (2 ^ 53 <= 2 ^ (- e)) by (apply Z.pow_le_mono_r; lia).
    lia.
  - lia.
Qed.

(** [int()] of a positive number, against a finer scale. *)
Lemma shiftl_scaled m e E :
  0 <= m -> E <= e -> E <= 0 ->
  0 <= Z.shiftl m e /\ Z.shiftl m e * 2 ^ (- E) <= m * 2 ^ (e - E).
Proof.
  intros Hm HEe HE. split; [now apply Z.shiftl_nonneg |].
  destruct (Z.le_gt_cases 0 e) as [He | He].
  - rewrite Z.shiftl_mul_pow2 by lia.
    replace (e - E) with (e + - E) by lia. rewrite Z.pow_add_r by lia. lia.
  - rewrite Z.shiftl_div_pow2 by lia.
    assert (0 < 2 ^ (- e)) as Hpos by (apply Z.pow_pos_nonneg; lia).
    pose proof (Z.mul_div_le m (2 ^ (- e)) Hpos) as Hdiv.
    replace (- E) with (- e + (e - E)) by lia. rewrite Z.pow_add_r by lia.
    assert (0 <= 2 ^ (e - E)) by (apply Z.pow_nonneg; lia).
    nia.
Qed.

(** [int(n * r)] is at most the exact product, but for a relative error of
    [2^-52]. *)
Lemma int_of_scaled_bound n r :
  0 < n < 2 ^ 53 ->
  (0 <? r)%float = true -> (r <? 1)%float = true ->
  exists my ey a,
    Prim2SF r = S754_finite false my ey
    /\ ey <= -52
    /\ Zpos my < 2 ^ (- ey)
    /\ Num.int_of_float (Num.float_of_int n * r)%float = Ok a
    /\ 0 <= a
    /\ a * 2 ^ 52 * 2 ^ (- ey) <= n * Zpos my * (2 ^ 52 + 1).
Proof.
  intros Hn H0 H1.
  destruct (ratio_value r H0 H1) as (my & ey & Hr & Hey & Hval).
  destruct (float_of_int_exact n Hn) as (mx & ex & Hx & Hex & Hmx).
  exists my, ey.
  pose proof (mul_small (Uint63.of_Z n) r H0 H1) as Hsmall.
  unfold Num.int_of_float. fold (Num.float_of_int n) in Hsmall.
  rewrite FloatAxioms.mul_spec, Hx, Hr in *.
  unfold SF64mul, SFmul in *. simpl xorb in *.
  assert (0 < 2 ^ (- ex)) as HX by (apply Z.pow_pos_nonneg; lia).
  assert (0 < 2 ^ (- ey)) as HY by (apply Z.pow_pos_nonneg; lia).
  assert (2 ^ (- (ex + ey)) = 2 ^ (- ex) * 2 ^ (- ey)) as HXY.
  { rewrite <- Z.pow_add_r by lia. f_equal. lia. }
  assert (Zpos (mx * my) = n * 2 ^ (- ex) * Zpos my) as HM.
  { rewrite Pos2Z.inj_mul, Hmx. reflexivity. }
  destruct (binary_round_aux prec emax false (Zpos (mx * my)) (ex + ey) loc_Exact)
    as [s|s| |s m2 e2] eqn:Hround.
  - exists 0. repeat split; try assumption; try reflexivity; lia.
  - destruct Hsmall as [H | (m & e & H & _)]; discriminate H.
  - destruct Hsmall as [H | (m & e & H & _)]; discriminate H.
  - assert (s = false) as ->.
    { destruct Hsmall as [H | (m & e & H & _)]; [discriminate H |].
      now injection H. }
    exists (Z.shiftl (Zpos m2) e2).
    split; [reflexivity |]. split; [exact Hey |]. split; [exact Hval |].
    split; [reflexivity |].
    destruct (binary_round_aux_upper _ _ _ _ Hround) as [Hnone Hshift].
    set (k := fexp prec emax (Zpos (digits2_pos (mx * my)) + (ex + ey)) - (ex + ey))
      in *.
    set (a := Z.shiftl (Zpos m2) e2).
    destruct (Z.le_gt_cases k 0) as [Hk | Hk].
    + destruct (Hnone Hk) as [-> ->].
      destruct (shiftl_scaled (Zpos (mx * my)) (ex + ey) (ex + ey))
        as [Ha0 Ha]; try lia.
      fold a in Ha0, Ha. split; [exact Ha0 |].
      rewrite Z.sub_diag, Z.pow_0_r, HXY, HM in Ha.
      assert (a * 2 ^ (- ey) <= n * Zpos my) by nia.
      nia.
    + destruct (Hshift Hk) as [He2 Hup].
      destruct (shiftl_scaled (Zpos m2) e2 (ex + ey)) as [Ha0 Ha]; try lia.
      fold a in Ha0, Ha. split; [exact Ha0 |].
      assert (a * 2 ^ (- (ex + ey)) <= Zpos (mx * my) + 2 ^ k) as Hbound by lia.
      clear Ha Hup.
      pose proof (digits_bounds (mx * my)) as [Hdlo Hdhi].
      set (d := Zpos (digits2_pos (mx * my))) in *.
      assert (0 < d) as Hd0 by (unfold d; lia).
      destruct (Z.le_gt_cases (-1074) (d + (ex + ey) - 53)) as [Hnorm | Hsub].
      * assert (k = d - 53) as Hkd.
        { unfold k, fexp, SpecFloat.emin, prec, emax. lia. }
        assert (2 ^ k * 2 ^ 52 <= Zpos (mx * my)) as Hulp.
        { rewrite <- Z.pow_add_r by lia.
          replace (k + 52) with (d - 1) by lia. exact Hdlo. }
        rewrite HXY, HM in *.
        assert (2 ^ (- ex) * (a * 2 ^ 52 * 2 ^ (- ey))
                <= 2 ^ (- ex) * (n * Zpos my * (2 ^ 52 + 1))) as Hmul by nia.
        now apply Z.mul_le_mono_pos_l in Hmul.
      * assert (k = -1074 - (ex + ey)) as Hkd.
        { unfold k, fexp, SpecFloat.emin, prec, emax. lia. }
        assert (2 ^ d <= 2 ^ (k + 52)) as Hd52 by (apply Z.pow_le_mono_r; lia).
        rewrite Z.pow_add_r in Hd52 by lia.
        assert (2 ^ (- (ex + ey)) = 2 ^ k * 2 ^ 1074) as Hscale.
        { rewrite <- Z.pow_add_r by lia. f_equal. lia. }
        assert (2 ^ 53 <= 2 ^ 1074) as Hbig by (apply Z.pow_le_mono_r; lia).
        assert (0 < 2 ^ k) as Hpk by (apply Z.pow_pos_nonneg; lia).
        rewrite Hscale in Hbound.
        remember (2 ^ 1074) as P eqn:HP. clear HP.
        remember (2 ^ k) as K eqn:HK. clear HK.
        assert (a = 0) as -> by nia.
        nia.
Qed.

(** *** The sum of two ratios *)

Lemma digits_unique p d :
  2 ^ (d - 1) <= Zpos p < 2 ^ d -> Zpos (digits2_pos p) = d.
Proof.
  intros [Hlo Hhi]. pose proof (digits_bounds p) as [Hdlo Hdhi].
  assert (0 < d) as Hd.
  { destruct (Z.lt_trichotomy d 0) as [Hneg | [Hz | Hpos]]; [| | exact Hpos].
    - rewrite (Z.pow_neg_r 2 d Hneg) in Hhi. lia.
    - rewrite Hz in Hhi. change (2 ^ 0) with 1 in Hhi. lia. }
  destruct (Z.lt_trichotomy (Zpos (digits2_pos p)) d) as [Hlt | [Heq | Hgt]].
  - assert (2 ^ Zpos (digits2_pos p) <= 2 ^ (d - 1))
      by (apply Z.pow_le_mono_r; lia). lia.
  - exact Heq.
  - assert (2 ^ d <= 2 ^ (Zpos (digits2_pos p) - 1))
      by (apply Z.pow_le_mono_r; lia). lia.
Qed.

Lemma shl_align_value m e ez :
  ez <= e -> Zpos (fst (shl_align m e ez)) = Zpos m * 2 ^ (e - ez).
Proof.
  intros Hle. unfold shl_align.
  destruct (ez - e) as [|d|d] eqn:Hd; simpl fst; try lia.
  - replace (e - ez) with 0 by lia. lia.
  - rewrite iter_xO_value. f_equal. f_equal. lia.
Qed.

(** A mantissa of 53 or 54 digits at exponent -52 ends as a float that is
    not below 1. *)
Lemma rounded_not_below_one m :
  2 ^ 52 <= m <= 2 ^ 53 ->
  SFltb
    (let '(mrs, e) := shr_fexp prec emax m (-52) loc_Exact in
     match shr_m mrs with
     | 0 => S754_zero false
     | Zpos q => if e <=? emax - prec then S754_finite false q e
                 else S754_infinity false
     | Zneg _ => S754_nan
     end)
    (S754_finite false 4503599627370496 (-52)) = false.
Proof.
  intros Hm. destruct (Z.eq_dec m (2 ^ 53)) as [-> | Hne].
  - vm_compute. reflexivity.
  - destruct m as [|q|q]; try lia.
    destruct (shr_fexp_exact (Zpos q) (-52) ltac:(lia)) as [Hnone _].
    change (Zdigits2 (Zpos q)) with (Zpos (digits2_pos q)) in Hnone.
    rewrite (digits_unique q 53) in Hnone by (change (53 - 1) with 52; lia).
    rewrite Hnone by (vm_compute; discriminate).
    simpl shr_m. change (-52 <=? emax - prec) with true. cbv iota.
    unfold SFltb, SFcompare. change (-52 ?= -52) with Eq. cbv iota.
    destruct (PosDef.Pos.compare_cont Eq q 4503599627370496) eqn:Hc;
      try reflexivity.
    exfalso.
    assert (Zpos q < Zpos 4503599627370496) as Hlt.
    { apply compare_cont_lt. now rewrite Hc. }
    change (2 ^ 52) with 4503599627370496 in Hm. lia.
Qed.

(** When the float sum of two ratios is below 1, so is their exact sum. *)
Lemma sum_below_one tr vr mt et mv ev :
  Prim2SF tr = S754_finite false mt et ->
  Prim2SF vr = S754_finite false mv ev ->
  et <= -52 -> ev <= -52 ->
  Zpos mt < 2 ^ (- et) -> Zpos mv < 2 ^ (- ev) ->
  (tr + vr <? 1)%float = true ->
  Zpos mt * 2 ^ (- ev) + Zpos mv * 2 ^ (- et) < 2 ^ (- et) * 2 ^ (- ev).
Proof.
  intros Htr Hvr Het Hev Hmt Hmv Hlt.
  destruct (Z.lt_ge_cases (Zpos mt * 2 ^ (- ev) + Zpos mv * 2 ^ (- et))
              (2 ^ (- et) * 2 ^ (- ev))) as [|Hge]; [assumption | exfalso].
  rewrite FloatAxioms.ltb_spec, FloatAxioms.add_spec, Htr, Hvr, one_spec in Hlt.
  unfold SF64add, SFadd in Hlt.
  set (ez := Z.min et ev) in *.
  pose proof (shl_align_value mt et ez ltac:(lia)) as HA.
  pose proof (shl_align_value mv ev ez ltac:(lia)) as HB.
  destruct (shl_align mt et ez) as [A eA]. destruct (shl_align mv ev ez) as [B eB].
  simpl fst in *. simpl cond_Zopp in Hlt.
  change (Zpos A + Zpos B) with (Zpos (A + B)) in Hlt.
  unfold binary_normalize, binary_round in Hlt.
  assert (0 < 2 ^ (- et)) as HT by (apply Z.pow_pos_nonneg; lia).
  assert (0 < 2 ^ (- ev)) as HV by (apply Z.pow_pos_nonneg; lia).
  assert (0 < 2 ^ (et - ez)) as HA2 by (apply Z.pow_pos_nonneg; lia).
  assert (0 < 2 ^ (ev - ez)) as HB2 by (apply Z.pow_pos_nonneg; lia).
  assert (2 ^ (- ez) = 2 ^ (- et) * 2 ^ (et - ez)) as HZT.
  { rewrite <- Z.pow_add_r by lia. f_equal. lia. }
  assert (2 ^ (- ez) = 2 ^ (- ev) * 2 ^ (ev - ez)) as HZV.
  { rewrite <- Z.pow_add_r by lia. f_equal. lia. }
  assert (2 ^ (- ez) <= Zpos (A + B) < 2 * 2 ^ (- ez)) as HM.
  { rewrite Pos2Z.inj_add, HA, HB. split.
    - assert (2 ^ (- et) * 2 ^ (- ev) * 2 ^ (- ez)
              <= 2 ^ (- et) * 2 ^ (- ev)
                 * (Zpos mt * 2 ^ (et - ez) + Zpos mv * 2 ^ (ev - ez))) as Hmul.
      { replace (2 ^ (- et) * 2 ^ (- ev)
                 * (Zpos mt * 2 ^ (et - ez) + Zpos mv * 2 ^ (ev - ez)))
          with (Zpos mt * 2 ^ (- ev) * (2 ^ (- et) * 2 ^ (et - ez))
                + Zpos mv * 2 ^ (- et) * (2 ^ (- ev) * 2 ^ (ev - ez))) by ring.
        rewrite <- HZT, <- HZV. nia. }
      apply Z.mul_le_mono_pos_l in Hmul; [exact Hmul | nia].
    - nia. }
  assert (Zpos (digits2_pos (A + B)) = 1 - ez) as Hd.
  { apply digits_unique. replace (1 - ez - 1) with (- ez) by lia.
    replace (1 - ez) with (1 + - ez) by lia.
    rewrite Z.pow_add_r, Z.pow_1_r by lia. exact HM. }
  rewrite Hd in Hlt. replace (1 - ez + ez) with 1 in Hlt by lia.
  change (fexp prec emax 1) with (-52) in Hlt.
  unfold shl_align in Hlt.
  assert (exists k, -52 - ez = k /\ 0 <= k) as (k & Hk & Hk0) by (exists (-52 - ez); lia).
  rewrite Hk in Hlt.
  assert (2 ^ (- ez) = 2 ^ 52 * 2 ^ k) as Hscale.
  { rewrite <- Z.pow_add_r by lia. f_equal. lia. }
  destruct k as [|p|p]; try lia.
  - assert (ez = -52) as Hez by lia. rewrite Hez in *.
    rewrite binary_round_aux_exact in Hlt.
    + apply ltb_finite in Hlt as [Hlt | [_ Hlt]]; [lia |].
      change (2 ^ (- -52)) with 4503599627370496 in HM. lia.
    + rewrite Hd. vm_compute. discriminate.
    + vm_compute. discriminate.
  - unfold binary_round_aux in Hlt.
    destruct (shr_fexp_exact (Zpos (A + B)) ez ltac:(lia)) as [_ Hshift].
    change (Zdigits2 (Zpos (A + B))) with (Zpos (digits2_pos (A + B))) in Hshift.
    rewrite Hd in Hshift. replace (1 - ez + ez) with 1 in Hshift by lia.
    change (fexp prec emax 1) with (-52) in Hshift. rewrite Hk in Hshift.
    destruct (Hshift ltac:(lia)) as (He1 & Hm1 & Hlo & Hhi). clear Hshift.
    destruct (shr_fexp prec emax (Zpos (A + B)) ez loc_Exact) as [mrs1 e1].
    simpl in He1, Hm1, Hlo, Hhi.
    assert (e1 = -52) as -> by lia.
    pose proof (round_nearest_even_bounds (shr_m mrs1) (loc_of_shr_record mrs1))
      as Hr.
    assert (0 < 2 ^ Zpos p) as Hpk by (apply Z.pow_pos_nonneg; lia).
    rewrite Hscale in HM.
    assert (2 ^ 52 <= shr_m mrs1 < 2 ^ 53) as Hm1b.
    { change (2 ^ 53) with (2 * 2 ^ 52). nia. }
    rewrite rounded_not_below_one in Hlt by lia.
    discriminate Hlt.
Qed.

(** *** The two sizes together *)

(** For fewer than [2^52] pairs and two ratios in (0,1) whose float sum is
    below 1, [int(n * train_ratio) + int(n * val_ratio)] is at most [n]. *)
Lemma sizes_fit n tr vr a b :
  0 < n < 2 ^ 52 ->
  (0 <? tr)%float = true -> (tr <? 1)%float = true ->
  (0 <? vr)%float = true -> (vr <? 1)%float = true ->
  (tr + vr <? 1)%float = true ->
  Num.int_of_float (Num.float_of_int n * tr)%float = Ok a ->
  Num.int_of_float (Num.float_of_int n * vr)%float = Ok b ->
  0 <= a /\ 0 <= b /\ a + b <= n.
Proof.
  intros Hn Ht0 Ht1 Hv0 Hv1 Hsum Ha Hb.
  assert (0 < n < 2 ^ 53) as Hn53.
  { change (2 ^ 53) with (2 * 2 ^ 52). lia. }
  destruct (int_of_scaled_bound n tr Hn53 Ht0 Ht1)
    as (mt & et & a' & Htr & Het & Hmt & Ha' & Ha0 & Hab).
  destruct (int_of_scaled_bound n vr Hn53 Hv0 Hv1)
    as (mv & ev & b' & Hvr & Hev & Hmv & Hb' & Hb0 & Hbb).
  rewrite Ha in Ha'. injection Ha' as <-.
  rewrite Hb in Hb'. injection Hb' as <-.
  pose proof (sum_below_one tr vr mt et mv ev Htr Hvr Het Hev Hmt Hmv Hsum)
    as Hexact.
  split; [exact Ha0 |]. split; [exact Hb0 |].
  assert (0 < 2 ^ (- et)) as HT by (apply Z.pow_pos_nonneg; lia).
  assert (0 < 2 ^ (- ev)) as HV by (apply Z.pow_pos_nonneg; lia).
  remember (2 ^ (- et)) as T eqn:HeqT. remember (2 ^ (- ev)) as V eqn:HeqV.
  clear HeqT HeqV Htr Hvr Ha Hb Hsum.
  remember (2 ^ 52) as W eqn:HW.
  assert (0 < W) as HW0 by (subst W; lia).
  assert (n < W) as HnW by lia.
  clear HW Hn53.
  destruct (Z.le_gt_cases (a + b) n) as [|Hgt]; [assumption | exfalso].
  assert (a * W * T * V <= n * Zpos mt * (W + 1) * V) as H1
    by (apply Z.mul_le_mono_nonneg_r; lia).
  assert (b * W * V * T <= n * Zpos mv * (W + 1) * T) as H2
    by (apply Z.mul_le_mono_nonneg_r; lia).
  assert ((a + b) * W * (T * V)
          <= n * (W + 1) * (Zpos mt * V + Zpos mv * T)) as H3 by lia.
  clear H1 H2 Hab Hbb.
  assert (0 < T * V) as HQ0 by (apply Z.mul_pos_pos; assumption).
  remember (Zpos mt * V + Zpos mv * T) as S eqn:HS.
  remember (T * V) as Q eqn:HQ.
  remember (a + b) as c eqn:Hc.
  clear HS HQ Hc Hmt Hmv HT HV.
  assert (0 <= n * (W + 1)) as Hnw by (apply Z.mul_nonneg_nonneg; lia).
  assert (0 <= W * Q) as Hwq by (apply Z.mul_nonneg_nonneg; lia).
  assert (n * (W + 1) * S <= n * (W + 1) * (Q - 1)) as H4
    by (apply Z.mul_le_mono_nonneg_l; lia).
  assert ((n + 1) * (W * Q) <= c * (W * Q)) as H5
    by (apply Z.mul_le_mono_nonneg_r; lia).
  assert (n * Q <= W * Q) as H6 by (apply Z.mul_le_mono_nonneg_r; lia).
  lia.
Qed.

End NumBounds.

(** ** The splitter *)

Module SplitFacts.
Import Split.

(** *** Shuffling and sorting permute *)

Lemma swap_perm {A} (x x' : list A) i j : swap x i j = Ok x' -> x' ≡ₚ x.
Proof.
  unfold swap.
  destruct (x !! i) as [a|] eqn:Hi; [| discriminate].
  destruct (x !! j) as [b|] eqn:Hj; [| discriminate].
  intros [= <-]. now apply Permutation_insert_swap.
Qed.

Lemma swap_in_range {A} (x : list A) i j :
  (i < length x)%nat -> (j < length x)%nat -> exists x', swap x i j = Ok x'.
Proof.
  intros [a Ha]%lookup_lt_is_Some_2 [b Hb]%lookup_lt_is_Some_2.
  unfold swap. rewrite Ha, Hb. eauto.
Qed.

Section Shuffle.
Context (R : Random) (Hrange : randbelow_in_range R).

(** The loop of [random.shuffle] raises no [IndexError] and permutes. *)
Lemma shuffle_loop_perm {A} i g (x : list A) :
  (i < length x)%nat ->
  exists x', shuffle_loop R i g x = Ok x' /\ x' ≡ₚ x.
Proof.
  revert g x. induction i as [|i IH]; intros g x Hi; simpl.
  - now exists x.
  - pose proof (Hrange g (S (S i)) ltac:(lia)) as Hj.
    destruct (randbelow R g (S (S i))) as [j g']. simpl in Hj.
    destruct (swap_in_range x (S i) j) as [x1 Hswap]; [lia | lia |].
    rewrite Hswap. simpl. pose proof (swap_perm _ _ _ _ Hswap) as Hp.
    destruct (IH g' x1) as (x' & -> & Hp').
    { rewrite (Permutation_length Hp). lia. }
    exists x'. split; [reflexivity |]. now rewrite Hp'.
Qed.

Lemma shuffle_perm {A} seed (x : list A) :
  exists x', shuffle R seed x = Ok x' /\ x' ≡ₚ x.
Proof.
  unfold shuffle. destruct x as [|a x].
  - now exists [].
  - apply shuffle_loop_perm. simpl. lia.
Qed.

End Shuffle.

Lemma insert_sorted_perm p l : insert_sorted p l ≡ₚ p :: l.
Proof.
  induction l as [|q l IH]; simpl; [reflexivity |].
  destruct (str_leb p q); [reflexivity |].
  rewrite IH. apply Permutation_swap.
Qed.

Lemma sorted_perm l : sorted l ≡ₚ l.
Proof.
  unfold sorted. induction l as [|p l IH]; simpl; [reflexivity |].
  now rewrite insert_sorted_perm, IH.
Qed.

(** *** Slices *)

Lemma clamp_nonneg len i : 0 <= i -> clamp len i = Nat.min (Z.to_nat i) len.
Proof. unfold clamp. intros Hi. destruct (Z.ltb_spec i 0); lia. Qed.

(** Three consecutive slices at non-negative bounds give the list back. *)
Lemma slices_partition {A} (l : list A) (a b : Z) :
  0 <= a -> 0 <= b ->
  slice_to l a ++ slice l a (a + b) ++ slice_from l (a + b) = l.
Proof.
  intros Ha Hb. unfold slice_to, slice, slice_from.
  rewrite !clamp_nonneg by lia.
  set (ca := Nat.min (Z.to_nat a) (length l)).
  set (cb := Nat.min (Z.to_nat (a + b)) (length l)).
  assert (ca <= cb)%nat as Hle by lia.
  replace (drop cb l) with (drop (cb - ca) (drop ca l)).
  - now rewrite take_drop, take_drop.
  - rewrite drop_drop. f_equal. lia.
Qed.

Lemma slice_lengths {A} (l : list A) (a b : Z) :
  0 <= a -> 0 <= b -> a + b <= Z.of_nat (length l) ->
  Z.of_nat (length (slice_to l a)) = a
  /\ Z.of_nat (length (slice l a (a + b))) = b
  /\ Z.of_nat (length (slice_from l (a + b))) = Z.of_nat (length l) - a - b.
Proof.
  intros Ha Hb Hab. unfold slice_to, slice, slice_from.
  rewrite !clamp_nonneg by lia.
  rewrite !length_take, !length_drop. lia.
Qed.

(** Without any assumption on the generator: a shuffle that returns has
    permuted. *)
Lemma shuffle_loop_returns_perm (R : Random) {A} i g (x x' : list A) :
  shuffle_loop R i g x = Ok x' -> x' ≡ₚ x.
Proof.
  revert g x. induction i as [|i IH]; intros g x; simpl.
  - now intros [= <-].
  - destruct (randbelow R g (S (S i))) as [j g'].
    destruct (swap x (S i) j) as [x1|] eqn:Hswap; simpl; [| discriminate].
    intros Hrun. rewrite (IH _ _ Hrun). now apply swap_perm in Hswap.
Qed.

Lemma in_take {A} (x : A) n l : In x (take n l) -> In x l.
Proof. intros H. rewrite <- (take_drop n l). apply in_or_app. now left. Qed.

Lemma in_drop {A} (x : A) n l : In x (drop n l) -> In x l.
Proof. intros H. rewrite <- (take_drop n l). apply in_or_app. now right. Qed.

(** Whatever the bounds, a slice holds items of the list only. *)
Lemma in_slices {A} (x : A) l a b c :
  In x (slice_to l a ++ slice l b c ++ slice_from l c) -> In x l.
Proof.
  unfold slice_to, slice, slice_from.
  intros [H | [H | H]%in_app_or]%in_app_or.
  - now apply in_take in H.
  - now apply in_take, in_drop in H.
  - now apply in_drop in H.
Qed.

(** *** Which files the splitter enumerates *)

Lemma endswith_app (s suf : str) :
  Str.endswith s suf = true -> exists pre, s = pre ++ suf.
Proof.
  unfold Str.endswith, Str.eqb.
  intros [Heq _]%andb_true_iff. apply bool_decide_eq_true in Heq.
  exists (take (length s - length suf) s).
  symmetry. etransitivity; [| apply (take_drop (length s - length suf) s)].
  now rewrite Heq.
Qed.

Lemma rfind_app c (pre s : str) i :
  Str.rfind c s = Some i -> Str.rfind c (pre ++ s) = Some (length pre + i)%nat.
Proof.
  intros Hs. induction pre as [|x pre IH]; simpl; [exact Hs |].
  now rewrite IH.
Qed.

(** A name matched by ["*.jpg"] or ["*.jpeg"] is that extension alone, or
    has it as its suffix, in lower case. *)
Lemma glob_star_suffix (ext name : str) :
  ext = Str.lit ".jpg" \/ ext = Str.lit ".jpeg" ->
  Path.glob_star ext name = true ->
  name = ext \/ Path.suffix name = ext.
Proof.
  intros Hext [pre ->]%endswith_app.
  destruct pre as [|c pre]; [now left |]. right.
  assert (Str.rfind Path.dot ext = Some O /\ (2 <= length ext)%nat) as [Hdot Hlen].
  { destruct Hext as [-> | ->]; vm_compute; split; (reflexivity || lia). }
  unfold Path.suffix, Path.split_point.
  rewrite (rfind_app _ (c :: pre) _ _ Hdot).
  rewrite length_app, Nat.add_0_r.
  replace ((0 <? length (c :: pre))%nat) with true
    by (symmetry; apply Nat.ltb_lt; simpl; lia).
  replace ((length (c :: pre) <? length (c :: pre) + length ext - 1)%nat) with true
    by (symmetry; apply Nat.ltb_lt; lia).
  simpl andb. cbv iota. apply drop_app_length.
Qed.

Section Enumeration.
Context (src : dir).

Lemma image_paths_in name :
  In name (image_paths src) <->
  In name (map fst src)
  /\ (Path.glob_star (Str.lit ".jpg") name = true
      \/ Path.glob_star (Str.lit ".jpeg") name = true).
Proof.
  unfold image_paths, glob. split.
  - intros H. apply (Permutation_in _ (sorted_perm _)) in H.
    rewrite in_app_iff, !filter_In in H. tauto.
  - intros H. apply (Permutation_in _ (Permutation_sym (sorted_perm _))).
    rewrite in_app_iff, !filter_In. tauto.
Qed.

Lemma pair_up_in img lbl :
  In (img, lbl) (pair_up src (image_paths src)) -> In img (image_paths src).
Proof.
  generalize (image_paths src) as paths.
  induction paths as [|q paths IH]; simpl; [tauto |].
  destruct (exists_file src _); simpl; [intros [[= -> _] | H] | intros H]; auto.
Qed.

(** The images of every split of a plan are enumerated images. *)
Lemma plan_images_enumerated (R : Random) train_ratio val_ratio seed p pair :
  plan_split R src train_ratio val_ratio seed = Ok p ->
  In pair (train_set p ++ val_set p ++ test_set p) ->
  In (fst pair) (image_paths src).
Proof.
  unfold plan_split.
  destruct (image_paths src) as [|q paths] eqn:Hpaths; [discriminate |].
  rewrite <- Hpaths.
  destruct (pair_up src (image_paths src)) as [|pr prs] eqn:Hpairs;
    [discriminate |].
  rewrite <- Hpairs. unfold shuffle.
  destruct (shuffle_loop R _ _ _) as [shuffled|] eqn:Hsh; simpl; [| discriminate].
  destruct (Num.int_of_float _) as [a|]; simpl; [| discriminate].
  destruct (Num.int_of_float _) as [b|]; simpl; [| discriminate].
  intros [= <-]. simpl. intros Hin%in_slices.
  apply shuffle_loop_returns_perm in Hsh.
  apply (Permutation_in _ Hsh) in Hin.
  destruct pair as [img lbl]. now apply pair_up_in in Hin.
Qed.

End Enumeration.

(** *** What the copying loops leave alone *)

Section Copies.
Context (src : dir).

Lemma copy_pairs_untouched img_out lbl_out pairs t path :
  (forall pr, In pr pairs ->
              path <> img_out ++ [fst pr] /\ path <> lbl_out ++ [snd pr]) ->
  tree_files (snd (copy_pairs src img_out lbl_out pairs t)) !! path
  = tree_files t !! path.
Proof.
  revert t. induction pairs as [|[img_p lbl_p] rest IH]; intros t Hne; simpl;
    [reflexivity |].
  destruct (Hne (img_p, lbl_p) (or_introl eq_refl)) as [Hi Hl]. simpl in Hi, Hl.
  unfold copy2, read_bytes.
  destruct (lookup_file src img_p); simpl; [| reflexivity].
  destruct (lookup_file src lbl_p); simpl.
  - rewrite IH by (intros pr Hin; apply Hne; now right). simpl.
    rewrite !lookup_insert_ne by congruence. reflexivity.
  - now rewrite lookup_insert_ne by congruence.
Qed.

(** [prepare_split] writes below [images/] only the images of its pairs. *)
Lemma prepare_split_untouched split_name pairs t s name :
  (forall pr, In pr pairs -> fst pr <> name) ->
  tree_files (snd (prepare_split src split_name pairs t))
    !! [s; Str.lit "images"; name]
  = tree_files t !! [s; Str.lit "images"; name].
Proof.
  intros Hne. unfold prepare_split. rewrite copy_pairs_untouched; [reflexivity |].
  intros pr Hin. split; simpl.
  - intros [= _ Hn]. now apply (Hne pr Hin).
  - intros H. vm_compute in H. discriminate H.
Qed.

End Copies.

(** *** Distinct files give distinct pairs *)

Lemma globs_disjoint (name : str) :
  Path.glob_star (Str.lit ".jpg") name = true ->
  Path.glob_star (Str.lit ".jpeg") name = true -> False.
Proof.
  intros H1 H2.
  apply glob_star_suffix in H1; [| now left].
  apply glob_star_suffix in H2; [| now right].
  destruct H1 as [-> | H1], H2 as [H2 | H2];
    try discriminate H2; try (vm_compute in H2; discriminate H2).
  - subst name. vm_compute in H1. discriminate H1.
  - rewrite H1 in H2. discriminate H2.
Qed.

Lemma image_paths_nodup (src : dir) :
  List.NoDup (map fst src) -> List.NoDup (image_paths src).
Proof.
  intros Hnd. unfold image_paths.
  apply (Permutation_NoDup (Permutation_sym (sorted_perm _))).
  apply NoDup_ListNoDup, NoDup_app. unfold glob.
  split; [apply NoDup_ListNoDup; now apply List.NoDup_filter |].
  split; [| apply NoDup_ListNoDup; now apply List.NoDup_filter].
  intros name [_ H1]%list_elem_of_In%filter_In [_ H2]%list_elem_of_In%filter_In.
  exact (globs_disjoint name H1 H2).
Qed.

Lemma pair_up_nodup (src : dir) paths :
  List.NoDup paths -> List.NoDup (pair_up src paths).
Proof.
  induction 1 as [|q paths Hq Hnd IH]; simpl; [constructor |].
  destruct (exists_file src _); [| exact IH].
  constructor; [| exact IH]. intros Hin. apply Hq. clear -Hin.
  induction paths as [|r paths IH]; simpl in *; [tauto |].
  destruct (exists_file src _); simpl in Hin; [destruct Hin as [[= -> _] | Hin] |];
    auto.
Qed.

Lemma nodup_exactly_one {A} (x : A) (a b c : list A) :
  List.NoDup (a ++ b ++ c) -> In x (a ++ b ++ c) -> in_exactly_one x a b c.
Proof.
  intros Hnd Hin. unfold in_exactly_one.
  apply NoDup_ListNoDup, NoDup_app in Hnd as (_ & Hab & Hbc).
  apply NoDup_app in Hbc as (_ & Hbc & _).
  assert (In x a -> ~ In x b /\ ~ In x c) as Ha.
  { intros H%list_elem_of_In. specialize (Hab x H). rewrite elem_of_app in Hab.
    rewrite <- !list_elem_of_In. tauto. }
  assert (In x b -> ~ In x c) as Hb.
  { intros H%list_elem_of_In. specialize (Hbc x H).
    now rewrite <- list_elem_of_In. }
  rewrite !in_app_iff in Hin.
  destruct Hin as [H | [H | H]].
  - left. split; [assumption | now apply Ha].
  - right. left. repeat split; [intros H' | assumption | now apply Hb].
    now apply Ha in H'.
  - right. right. repeat split; [intros H' | intros H' | assumption].
    + now apply Ha in H'.
    + now apply Hb in H'.
Qed.

(** C8. For a non-empty list of valid pairs and ratios that pass the two
    assertions, the splitter returns a plan: [n_train] and [n_val] are the
    integer parts of [n_total * train_ratio] and [n_total * val_ratio],
    neither negative, [n_test = n_total - n_train - n_val], and the three
    sets are consecutive slices of the shuffled list whose concatenation is
    that list, which is a permutation of the valid pairs.  So the sizes add
    up to [n_total], and with distinct file names every valid pair is in
    exactly one split.  For fewer than [2^52] pairs, where [float(n_total)]
    is exact, rounding cannot push [n_train + n_val] above [n_total]: then
    [n_test] is not negative and the three segments have exactly [n_train],
    [n_val] and [n_test] elements. *)
Theorem split_sizes_and_segments (R : Random) (src : dir)
    (train_ratio val_ratio : float) (seed : Z) :
  randbelow_in_range R ->
  ratios_in_range train_ratio val_ratio = true ->
  ratios_sum_below_one train_ratio val_ratio = true ->
  pair_up src (image_paths src) <> [] ->
  exists p shuffled,
    plan_split R src train_ratio val_ratio seed = Ok p
    /\ shuffle R seed (pair_up src (image_paths src)) = Ok shuffled
    /\ shuffled ≡ₚ pair_up src (image_paths src)
    /\ n_total p = Z.of_nat (length (pair_up src (image_paths src)))
    /\ Num.int_of_float (Num.float_of_int (n_total p) * train_ratio)%float
       = Ok (n_train p)
    /\ Num.int_of_float (Num.float_of_int (n_total p) * val_ratio)%float
       = Ok (n_val p)
    /\ 0 <= n_train p /\ 0 <= n_val p
    /\ n_test p = n_total p - n_train p - n_val p
    /\ train_set p = slice_to shuffled (n_train p)
    /\ val_set p = slice shuffled (n_train p) (n_train p + n_val p)
    /\ test_set p = slice_from shuffled (n_train p + n_val p)
    /\ train_set p ++ val_set p ++ test_set p = shuffled
    /\ n_train p + n_val p + n_test p = n_total p
    /\ Z.of_nat (length (train_set p) + length (val_set p) + length (test_set p))
       = n_total p
    /\ (List.NoDup (map fst src) ->
        forall pair, In pair (pair_up src (image_paths src)) ->
                     in_exactly_one pair (train_set p) (val_set p) (test_set p))
    /\ (n_total p < 2 ^ 52 ->
        n_train p + n_val p <= n_total p
        /\ 0 <= n_test p
        /\ Z.of_nat (length (train_set p)) = n_train p
        /\ Z.of_nat (length (val_set p)) = n_val p
        /\ Z.of_nat (length (test_set p)) = n_test p).
Proof.
  intros Hrange Hin_range Hsum Hpairs.
  unfold ratios_in_range in Hin_range.
  apply andb_true_iff in Hin_range as [[Ht0 Ht1]%andb_true_iff [Hv0 Hv1]%andb_true_iff].
  destruct (shuffle_perm R Hrange seed (pair_up src (image_paths src)))
    as (shuffled & Hsh & Hperm).
  set (n := Z.of_nat (length shuffled)).
  destruct (NumFacts.int_of_scaled_ok n train_ratio Ht0 Ht1) as (a & Ha & Ha0).
  destruct (NumFacts.int_of_scaled_ok n val_ratio Hv0 Hv1) as (b & Hb & Hb0).
  pose proof (slices_partition shuffled a b Ha0 Hb0) as Hpart.
  exists {| n_total := n; n_train := a; n_val := b; n_test := n - a - b;
            train_set := slice_to shuffled a;
            val_set := slice shuffled a (a + b);
            test_set := slice_from shuffled (a + b) |}, shuffled.
  split.
  { unfold plan_split.
    remember (image_paths src) as paths eqn:Hpaths.
    destruct paths as [|q paths]; [now destruct Hpairs |].
    remember (pair_up src (q :: paths)) as pairs eqn:Hprs.
    destruct pairs as [|pr prs]; [now destruct Hpairs |].
    rewrite Hsh. cbn [bind]. fold n. rewrite Ha. cbn [bind]. rewrite Hb.
    reflexivity. }
  simpl.
  split; [exact Hsh |]. split; [exact Hperm |].
  split; [unfold n; now rewrite (Permutation_length Hperm) |].
  split; [exact Ha |]. split; [exact Hb |].
  split; [exact Ha0 |]. split; [exact Hb0 |].
  do 4 (split; [reflexivity |]).
  split; [exact Hpart |]. split; [lia |].
  split; [| split].
  - pose proof (f_equal length Hpart) as Hlen. rewrite !length_app in Hlen.
    unfold n. lia.
  - intros Hnd pair Hin. apply nodup_exactly_one.
    + rewrite Hpart. apply (Permutation_NoDup (Permutation_sym Hperm)).
      now apply pair_up_nodup, image_paths_nodup.
    + rewrite Hpart. now apply (Permutation_in _ (Permutation_sym Hperm)).
  - intros Hsmall.
    assert (0 < n) as Hn.
    { unfold n. rewrite (Permutation_length Hperm).
      destruct (pair_up src (image_paths src)); [now destruct Hpairs |].
      simpl. lia. }
    destruct (NumBounds.sizes_fit n train_ratio val_ratio a b
                (conj Hn Hsmall) Ht0 Ht1 Hv0 Hv1 Hsum Ha Hb) as (_ & _ & Hfit).
    destruct (slice_lengths shuffled a b Ha0 Hb0 Hfit) as (Hl1 & Hl2 & Hl3).
    fold n in Hl3. repeat split; try assumption; lia.
Qed.

Lemma counter_in_range : randbelow_in_range Sample.counter.
Proof. intros g n Hn. simpl. apply Nat.mod_upper_bound. lia. Qed.

(** Scenario D: ten pairs at 0.7 and 0.15 give 7, 1 and 2, and segments
    of 7, 1 and 2 pairs. *)
Lemma split_sizes_witness :
  exists p,
    plan_split Sample.counter Sample.dir_d 0.7 0.15 42 = Ok p
    /\ n_total p = 10 /\ n_train p = 7 /\ n_val p = 1 /\ n_test p = 2
    /\ train_set p ++ val_set p ++ test_set p
       ≡ₚ pair_up Sample.dir_d (image_paths Sample.dir_d)
    /\ length (train_set p) = 7%nat
    /\ length (val_set p) = 1%nat
    /\ length (test_set p) = 2%nat.
Proof.
  destruct (split_sizes_and_segments Sample.counter Sample.dir_d 0.7 0.15 42)
    as (p & shuffled & Hplan & _ & Hperm & _ & _ & _ & _ & _ & _ & _ & _ & _
        & Hcat & _ & _ & _ & Hlen).
  - exact counter_in_range.
  - vm_compute. reflexivity.
  - vm_compute. reflexivity.
  - vm_compute. discriminate.
  - assert (n_total p = 10 /\ n_train p = 7 /\ n_val p = 1 /\ n_test p = 2)
      as (Htotal & Htrain & Hval & Htest).
    { revert Hplan. vm_compute. intros [= <-]. auto. }
    destruct Hlen as (_ & _ & Hl1 & Hl2 & Hl3); [rewrite Htotal; reflexivity |].
    exists p. split; [exact Hplan |].
    rewrite Hcat. repeat split; try assumption; lia.
Defined.

(** Scenario D, to the end: no exception; the root, three split
    directories with two directories each; twenty files written. *)
Example scenario_d :
  let r := split_dataset Sample.counter Sample.dir_d 0.7 0.15 42 Sample.empty_tree in
  fst r = None
  /\ size (tree_dirs (snd r)) = 10%nat
  /\ size (tree_files (snd r)) = 20%nat.
Proof. vm_compute. auto. Qed.

(** C9. When [train_ratio + val_ratio >= 1], or a ratio is not strictly
    between 0 and 1, [split_dataset] raises [AssertionError] and leaves the
    output root as it found it: no directory made, no file copied. *)
Theorem invalid_ratios_fail_before_any_io (R : Random) (src : dir)
    (train_ratio val_ratio : float) (seed : Z) (t0 : tree) :
  Flt.le 1 (train_ratio + val_ratio)%float
  \/ ~ (Flt.lt 0 train_ratio /\ Flt.lt train_ratio 1)
  \/ ~ (Flt.lt 0 val_ratio /\ Flt.lt val_ratio 1) ->
  split_dataset R src train_ratio val_ratio seed t0 = (Some AssertionError, t0).
Proof.
  unfold split_dataset, ratios_in_range, ratios_sum_below_one, Flt.le, Flt.lt.
  intros H.
  destruct (0 <? train_ratio)%float eqn:Ht0; [| reflexivity].
  destruct (train_ratio <? 1)%float eqn:Ht1; [| reflexivity].
  destruct (0 <? val_ratio)%float eqn:Hv0; [| reflexivity].
  destruct (val_ratio <? 1)%float eqn:Hv1; [| reflexivity].
  simpl. destruct H as [H | [H | H]]; [| now destruct H | now destruct H].
  now rewrite (NumFacts.le_one_not_lt _ H).
Qed.

(** Ratios 0.5 and 0.5 sum to 1. *)
Lemma invalid_ratios_witness :
  split_dataset Sample.counter Sample.dir_d 0.5 0.5 42 Sample.empty_tree
  = (Some AssertionError, Sample.empty_tree).
Proof.
  apply (invalid_ratios_fail_before_any_io Sample.counter Sample.dir_d 0.5 0.5 42
           Sample.empty_tree).
  left. vm_compute. reflexivity.
Defined.

(** C10. The cleaner takes [.jpg], [.jpeg] and [.png] in any case, the
    splitter only names matching ["*.jpg"] or ["*.jpeg"] as written.  So an
    image the cleaner takes whose suffix is [.png], or is not all in lower
    case, is not enumerated by the splitter, is in no split of any plan, and
    is written to no [images/] directory of the output root. *)
Theorem png_and_uppercase_images_are_in_no_split (R : Random) (src : dir)
    (name : str) :
  Clean.is_image name = true ->
  Str.lower (Path.suffix name) = Str.lit ".png"
  \/ Path.suffix name <> Str.lower (Path.suffix name) ->
  ~ In name (image_paths src)
  /\ (forall train_ratio val_ratio seed p,
        plan_split R src train_ratio val_ratio seed = Ok p ->
        ~ In name (map fst (train_set p ++ val_set p ++ test_set p)))
  /\ (forall train_ratio val_ratio seed t0 s,
        tree_files (snd (split_dataset R src train_ratio val_ratio seed t0))
          !! [s; Str.lit "images"; name]
        = tree_files t0 !! [s; Str.lit "images"; name]).
Proof.
  intros Himg Hsuffix.
  assert (forall ext, ext = Str.lit ".jpg" \/ ext = Str.lit ".jpeg" ->
                      Path.glob_star ext name = true -> False) as Hglob.
  { intros ext Hext Hmatch.
    destruct (glob_star_suffix ext name Hext Hmatch) as [-> | Hs].
    - destruct Hext as [-> | ->]; vm_compute in Himg; discriminate Himg.
    - rewrite Hs in Hsuffix.
      destruct Hext as [-> | ->], Hsuffix as [H | H];
        solve [vm_compute in H; discriminate H | apply H; reflexivity]. }
  assert (~ In name (image_paths src)) as Hnot.
  { intros [_ [H | H]]%image_paths_in.
    - apply (Hglob (Str.lit ".jpg")); auto.
    - apply (Hglob (Str.lit ".jpeg")); auto. }
  assert (forall train_ratio val_ratio seed p pair,
            plan_split R src train_ratio val_ratio seed = Ok p ->
            In pair (train_set p ++ val_set p ++ test_set p) ->
            fst pair <> name) as Hplan.
  { intros tr vr seed p pair Hp Hin <-.
    now apply Hnot, (plan_images_enumerated src R tr vr seed p pair). }
  split; [exact Hnot |]. split.
  - intros tr vr seed p Hp [pair [Hname Hin]]%in_map_iff.
    now apply (Hplan tr vr seed p pair Hp Hin).
  - intros tr vr seed t0 s. unfold split_dataset.
    destruct (negb (ratios_in_range tr vr)); [reflexivity |].
    destruct (negb (ratios_sum_below_one tr vr)); [reflexivity |].
    destruct (plan_split R src tr vr seed) as [p|] eqn:Hp; [| reflexivity].
    pose proof (prepare_split_untouched src (Str.lit "train") (train_set p)
                  t0 s name) as H1.
    destruct (prepare_split src (Str.lit "train") (train_set p) t0) as [e1 t1].
    pose proof (prepare_split_untouched src (Str.lit "val") (val_set p)
                  t1 s name) as H2.
    destruct (prepare_split src (Str.lit "val") (val_set p) t1) as [e2 t2].
    pose proof (prepare_split_untouched src (Str.lit "test") (test_set p)
                  t2 s name) as H3.
    destruct (prepare_split src (Str.lit "test") (test_set p) t2) as [e3 t3].
    simpl in *.
    assert (tree_files t1 !! [s; Str.lit "images"; name]
            = tree_files t0 !! [s; Str.lit "images"; name]) as E1.
    { apply H1. intros pr Hin. apply (Hplan tr vr seed p pr Hp).
      apply in_or_app. now left. }
    assert (tree_files t2 !! [s; Str.lit "images"; name]
            = tree_files t1 !! [s; Str.lit "images"; name]) as E2.
    { apply H2. intros pr Hin. apply (Hplan tr vr seed p pr Hp).
      apply in_or_app. right. apply in_or_app. now left. }
    assert (tree_files t3 !! [s; Str.lit "images"; name]
            = tree_files t2 !! [s; Str.lit "images"; name]) as E3.
    { apply H3. intros pr Hin. apply (Hplan tr vr seed p pr Hp).
      apply in_or_app. right. apply in_or_app. now right. }
    destruct e1; simpl; [exact E1 |].
    destruct e2; simpl; [congruence |]. congruence.
Qed.

(** Scenario A's [b.png] and [c.JPG] are not enumerated. *)
Lemma png_in_no_split_witness :
  ~ In (Sample.name "b.png") (image_paths Sample.dir_a)
  /\ ~ In (Sample.name "c.JPG") (image_paths Sample.dir_a).
Proof.
  split.
  - apply (png_and_uppercase_images_are_in_no_split Sample.counter Sample.dir_a
             (Sample.name "b.png")).
    + vm_compute. reflexivity.
    + left. vm_compute. reflexivity.
  - apply (png_and_uppercase_images_are_in_no_split Sample.counter Sample.dir_a
             (Sample.name "c.JPG")).
    + vm_compute. reflexivity.
    + right. vm_compute. discriminate.
Defined.

End SplitFacts.

(** * The runs of the cleaner *)

Module CleanRuns.
Import Clean CleanFacts.

(** A label name is not an image name. *)
Lemma label_of_not_image (img_path : str) : is_image (label_of img_path) = false.
Proof.
  unfold label_of, is_image.
  destruct (Path.stem img_path) as [|c stem].
  - vm_compute. reflexivity.
  - assert (Path.suffix ((c :: stem) ++ Str.lit ".txt") = Str.lit ".txt") as ->.
    { unfold Path.suffix, Path.split_point.
      rewrite (SplitFacts.rfind_app Path.dot (c :: stem) (Str.lit ".txt") O)
        by reflexivity.
      rewrite length_app, Nat.add_0_r.
      replace ((0 <? length (c :: stem))%nat) with true
        by (symmetry; apply Nat.ltb_lt; simpl; lia).
      replace ((length (c :: stem) <? length (c :: stem)
                + length (Str.lit ".txt") - 1)%nat) with true
        by (symmetry; apply Nat.ltb_lt; simpl; lia).
      simpl andb. cbv iota. apply drop_app_length. }
    vm_compute. reflexivity.
Qed.

Section Runs.
Context (lib : Lib) (cfg : config) (src : dir).

(** What one iteration of the loop does, by the rule that decides. *)
Inductive step (st : state) (img_path : str) (st' : state) : Prop :=
  | step_no_label :
      exists_file src (label_of img_path) = false ->
      st' = with_stats incr_no_label st ->
      step st img_path st'
  | step_invalid_bbox :
      exists_file src (label_of img_path) = true ->
      Labels.validate_bounding_boxes lib src (label_of img_path) = false ->
      st' = with_stats incr_invalid_bbox st ->
      step st img_path st'
  | step_duplicate data :
      labelled lib src img_path = true ->
      lookup_file src img_path = Some data ->
      is_Some (seen_hashes st !! md5_hexdigest lib data) ->
      st' = with_stats incr_duplicates st ->
      step st img_path st'
  | step_brightness data incr :
      labelled lib src img_path = true ->
      lookup_file src img_path = Some data ->
      seen_hashes st !! md5_hexdigest lib data = None ->
      check_brightness lib cfg src img_path <> Passed ->
      incr = incr_too_dark \/ incr = incr_too_bright ->
      st' = with_stats incr (with_seen (md5_hexdigest lib data) img_path st) ->
      step st img_path st'
  | step_kept data ldata written s :
      labelled lib src img_path = true ->
      lookup_file src img_path = Some data ->
      lookup_file src (label_of img_path) = Some ldata ->
      seen_hashes st !! md5_hexdigest lib data = None ->
      check_brightness lib cfg src img_path = Passed ->
      written = data \/ apply_enhancement cfg = true ->
      s = st_stats st \/ s = incr_enhanced (st_stats st) ->
      st' = {| st_stats := incr_kept s;
               seen_hashes := <[md5_hexdigest lib data := img_path]> (seen_hashes st);
               output := <[label_of img_path := ldata]>
                           (<[img_path := written]> (output st)) |} ->
      step st img_path st'.

Lemma process_image_step_cases st img_path st' :
  process_image lib cfg src st img_path = Ok st' -> step st img_path st'.
Proof.
  unfold process_image.
  destruct (exists_file src (label_of img_path)) eqn:Hex; simpl.
  2:{ intros [= <-]. now apply step_no_label. }
  destruct (Labels.validate_bounding_boxes lib src (label_of img_path)) eqn:Hv;
    simpl.
  2:{ intros [= <-]. now apply step_invalid_bbox. }
  assert (labelled lib src img_path = true) as Hl.
  { unfold labelled. now rewrite Hex, Hv. }
  unfold calculate_image_hash, read_bytes.
  destruct (lookup_file src img_path) as [data|] eqn:Hdata; simpl;
    [| discriminate].
  destruct (bool_decide _) eqn:Hseen.
  { apply bool_decide_eq_true in Hseen. intros [= <-].
    now apply (step_duplicate _ _ _ data). }
  apply bool_decide_eq_false in Hseen.
  assert (seen_hashes st !! md5_hexdigest lib data = None) as Hfresh.
  { now apply eq_None_not_Some. }
  destruct (check_brightness lib cfg src img_path) eqn:Hb.
  - intros [= <-].
    apply (step_brightness _ _ _ data incr_too_dark); auto. now rewrite Hb.
  - intros [= <-].
    apply (step_brightness _ _ _ data incr_too_bright); auto. now rewrite Hb.
  - destruct (exists_file_lookup _ _ Hex) as [ldata Hldata].
    destruct (accept_ok lib cfg src img_path (label_of img_path)
                (with_seen (md5_hexdigest lib data) img_path st) data ldata
                Hdata Hldata) as (written & -> & Hw).
    intros [= <-]. simpl in *.
    refine (step_kept _ _ _ data ldata written _ Hl Hdata Hldata Hfresh
              Hb _ _ eq_refl).
    + destruct (apply_enhancement cfg); simpl in *; [now right |].
      left. now apply Hw.
    + destruct (apply_enhancement cfg && _); [now right | now left].
Qed.

(** A property kept by every iteration on a discovered image holds at the
    end of the loop. *)
Lemma process_all_keeps (P : state -> Prop) imgs :
  (forall st img_path st',
      In img_path imgs -> P st -> step st img_path st' -> P st') ->
  forall st st', P st -> process_all lib cfg src imgs st = Ok st' -> P st'.
Proof.
  induction imgs as [|p imgs IH]; intros Hstep st st' HP; simpl.
  - now intros [= <-].
  - destruct (process_image lib cfg src st p) as [st1|] eqn:H1; simpl;
      [| discriminate].
    apply IH.
    + intros s i s' Hin. apply Hstep. now right.
    + apply (Hstep st p st1); auto. now left. now apply process_image_step_cases.
Qed.

Lemma clean_dataset_keeps (P : state -> Prop) out0 :
  (forall st img_path st',
      In img_path (image_files src) -> P st -> step st img_path st' -> P st') ->
  P (init_state src out0) ->
  exists st, clean_dataset lib cfg src out0 = Ok st /\ P st.
Proof.
  intros Hstep H0. unfold clean_dataset.
  destruct (process_all_run lib cfg src (image_files src) (init_state src out0)
              (image_files_all src)) as (st & Hrun & _).
  exists st. split; [exact Hrun |].
  now apply (process_all_keeps P (image_files src) Hstep _ _ H0 Hrun).
Qed.

(** *** What a run writes and what it leaves alone *)

(** X1.  A run that returns has deleted nothing from the output directory
    and has written there only under the names of discovered images and of
    their labels: every other name holds what it held before. *)
Theorem clean_dataset_writes_only_images_and_labels (out0 : gmap str bytes)
    (st : state) :
  clean_dataset lib cfg src out0 = Ok st ->
  (forall name, is_Some (out0 !! name) -> is_Some (output st !! name))
  /\ (forall name,
        ~ In name (image_files src) ->
        (forall img_path, In img_path (image_files src) ->
                          name <> label_of img_path) ->
        output st !! name = out0 !! name).
Proof.
  intros Hrun.
  destruct (clean_dataset_keeps
              (fun st =>
                 (forall name, is_Some (out0 !! name) -> is_Some (output st !! name))
                 /\ (forall name,
                       ~ In name (image_files src) ->
                       (forall img_path, In img_path (image_files src) ->
                                         name <> label_of img_path) ->
                       output st !! name = out0 !! name))
              out0) as (st' & Hrun' & HP).
  - intros s img s' Hin [Hkeep Hother] Hstep.
    destruct Hstep; subst s'; simpl; try (split; assumption).
    split.
    + intros name Hname. rewrite !lookup_insert_is_Some'. auto.
    + intros name Hni Hnl.
      rewrite !lookup_insert_ne; [now apply Hother | | ].
      * intros <-. contradiction.
      * intros <-. now apply (Hnl img).
  - split; auto.
  - rewrite Hrun in Hrun'. injection Hrun' as <-. exact HP.
Qed.

(** X2.  Whatever a run leaves in the output directory was there before, or
    is a byte-identical copy of the source file of that name, or, with
    enhancement on only, is a discovered image. *)
Theorem clean_dataset_output_is_copied (out0 : gmap str bytes) :
  exists st,
    clean_dataset lib cfg src out0 = Ok st
    /\ forall name content,
         output st !! name = Some content ->
         out0 !! name = Some content
         \/ lookup_file src name = Some content
         \/ (apply_enhancement cfg = true /\ In name (image_files src)).
Proof.
  apply (clean_dataset_keeps
           (fun st =>
              forall name content,
                output st !! name = Some content ->
                out0 !! name = Some content
                \/ lookup_file src name = Some content
                \/ (apply_enhancement cfg = true /\ In name (image_files src)))).
  - intros st img st' Hin HP Hstep.
    destruct Hstep as [| | | |data ldata written s Hl Hd Hld Hf Hb Hw Hs ->];
      subst; simpl; try assumption.
    intros name content.
    rewrite lookup_insert_Some. intros [[<- <-] | [_ Hlook]].
    { right. left. exact Hld. }
    apply lookup_insert_Some in Hlook as [[<- <-] | [_ Hlook]].
    { destruct Hw as [-> | Hon]; [right; left; exact Hd | right; right; auto]. }
    now apply HP.
  - intros name content H. now left.
Qed.

(** *** The digests recorded *)

(** X3.  At the end of a run the dictionary of digests has one entry for each
    image that reached the brightness check: kept, too dark or too bright. *)
Theorem seen_hashes_size (out0 : gmap str bytes) :
  exists st,
    clean_dataset lib cfg src out0 = Ok st
    /\ size (seen_hashes st)
       = (kept (st_stats st) + too_dark_removed (st_stats st)
          + too_bright_removed (st_stats st))%nat.
Proof.
  apply (clean_dataset_keeps
           (fun st =>
              size (seen_hashes st)
              = (kept (st_stats st) + too_dark_removed (st_stats st)
                 + too_bright_removed (st_stats st))%nat)).
  - intros st img st' Hin HP Hstep.
    destruct Hstep as [| | |data incr Hl Hd Hf Hb Hi ->
                       |data ldata written s Hl Hd Hld Hf Hb Hw Hs ->];
      subst; simpl; try assumption.
    + rewrite map_size_insert_None by assumption.
      destruct Hi as [-> | ->]; simpl; lia.
    + rewrite map_size_insert_None by assumption.
      destruct Hs as [-> | ->]; simpl; lia.
  - reflexivity.
Qed.

(** *** The cleaned directory, from an empty output directory *)

(** What holds of an image found in the output of a run that started from
    an empty directory, given the digests seen and the output so far. *)
Record kept_image (seen : gmap str str) (out : gmap str bytes) (name : str)
    : Prop := {
  kept_discovered : In name (image_files src);
  kept_labelled : labelled lib src name = true;
  kept_brightness : check_brightness lib cfg src name = Passed;
  kept_digest :
    exists data, lookup_file src name = Some data
                 /\ seen !! md5_hexdigest lib data = Some name;
  kept_label_copied : out !! label_of name = lookup_file src (label_of name);
}.

(** Images and labels of the output go in pairs. *)
Definition paired (seen : gmap str str) (out : gmap str bytes) : Prop :=
  (forall name, is_image name = true -> is_Some (out !! name) ->
                kept_image seen out name)
  /\ (forall name, is_image name = false -> is_Some (out !! name) ->
                   exists img_path, name = label_of img_path
                                    /\ In img_path (image_files src)
                                    /\ is_Some (out !! img_path)).

Lemma kept_image_seen seen out name h p out' :
  seen !! h = None ->
  kept_image seen out name ->
  out' !! label_of name = out !! label_of name ->
  kept_image (<[h := p]> seen) out' name.
Proof.
  intros Hfresh [Hd Hl Hb (data & Hdata & Hseen) Hc] Ho.
  constructor; auto.
  - exists data. split; [exact Hdata |].
    rewrite lookup_insert_ne; [exact Hseen | congruence].
  - now rewrite Ho.
Qed.

Lemma paired_kept st img_path st' :
  In img_path (image_files src) ->
  paired (seen_hashes st) (output st) -> step st img_path st' ->
  paired (seen_hashes st') (output st').
Proof.
  intros Hin [Himg Hlbl] Hstep.
  destruct (image_files_exist _ _ Hin) as [Hisimg _].
  destruct Hstep as [| | |data incr Hl Hd Hf Hb Hi ->
                     |data ldata written s Hl Hd Hld Hf Hb Hw Hs ->];
    subst; unfold paired; try (split; assumption).
  - split; simpl.
    + intros name Hn Hsome.
      now apply (kept_image_seen _ _ name _ img_path _ Hf (Himg name Hn Hsome)).
    + exact Hlbl.
  - split; simpl.
    + intros name Hn Hsome.
      destruct (decide (name = img_path)) as [-> | Hne].
      * constructor; simpl; auto.
        -- exists data. split; [exact Hd |]. apply lookup_insert_eq.
        -- rewrite lookup_insert_eq. now symmetry.
      * assert (name <> label_of img_path) as Hnl.
        { intros ->. rewrite label_of_not_image in Hn. discriminate Hn. }
        rewrite !lookup_insert_ne in Hsome by congruence.
        apply (kept_image_seen _ _ name _ img_path _ Hf (Himg name Hn Hsome)).
        destruct (decide (label_of name = label_of img_path)) as [Heq | Hll].
        -- rewrite Heq, lookup_insert_eq.
           destruct (Himg name Hn Hsome) as [_ _ _ _ Hc].
           rewrite Heq in Hc. now rewrite Hc.
        -- rewrite lookup_insert_ne by congruence.
           rewrite lookup_insert_ne; [reflexivity |].
           intros Heq. pose proof (label_of_not_image name) as Hx.
           rewrite <- Heq in Hx. congruence.
    + intros name Hn Hsome.
      destruct (decide (name = label_of img_path)) as [-> | Hnl].
      * exists img_path. split; [reflexivity |]. split; [exact Hin |].
        rewrite lookup_insert_ne by now apply label_of_ne.
        rewrite lookup_insert_eq. eauto.
      * rewrite lookup_insert_ne in Hsome by congruence.
        assert (name <> img_path) as Hni by congruence.
        rewrite lookup_insert_ne in Hsome by congruence.
        destruct (Hlbl name Hn Hsome) as (i & -> & Hi & Hsi).
        exists i. split; [reflexivity |]. split; [exact Hi |].
        rewrite !lookup_insert_is_Some'. auto.
Qed.

Lemma clean_dataset_paired :
  exists st,
    clean_dataset lib cfg src ∅ = Ok st
    /\ paired (seen_hashes st) (output st).
Proof.
  apply (clean_dataset_keeps (fun st => paired (seen_hashes st) (output st))).
  - intros st img st' Hin HP Hstep. now apply (paired_kept st img st').
  - split; simpl; intros name _ [? H]; rewrite lookup_empty in H; discriminate H.
Qed.

(** X4.  In a directory cleaned from empty, every image passed the checks in
    the source directory and has its label beside it, byte for byte the
    source label; and every other file is the label of an image that is
    there. *)
Theorem cleaned_images_and_labels_are_paired :
  exists st,
    clean_dataset lib cfg src ∅ = Ok st
    /\ (forall name,
          is_image name = true -> is_Some (output st !! name) ->
          Labels.validate_bounding_boxes lib src (label_of name) = true
          /\ check_brightness lib cfg src name = Passed
          /\ is_Some (output st !! label_of name)
          /\ output st !! label_of name = lookup_file src (label_of name))
    /\ (forall name,
          is_image name = false -> is_Some (output st !! name) ->
          exists img_path, name = label_of img_path
                           /\ is_image img_path = true
                           /\ is_Some (output st !! img_path)).
Proof.
  destruct clean_dataset_paired as (st & Hrun & Himg & Hlbl).
  exists st. split; [exact Hrun |]. split.
  - intros name Hn Hsome.
    destruct (Himg name Hn Hsome) as [_ Hl Hb _ Hc].
    unfold labelled in Hl. apply andb_true_iff in Hl as [Hex Hv].
    repeat split; auto. rewrite Hc.
    destruct (exists_file_lookup _ _ Hex) as [ldata ->]. eauto.
  - intros name Hn Hsome.
    destruct (Hlbl name Hn Hsome) as (img & -> & Hin & Hs).
    exists img. split; [reflexivity |].
    split; [apply (image_files_exist _ _ Hin) | exact Hs].
Qed.

(** X5.  In a directory cleaned from empty, no two images come from source
    files with the same digest. *)
Theorem cleaned_images_have_distinct_digests :
  exists st,
    clean_dataset lib cfg src ∅ = Ok st
    /\ forall a b data_a data_b,
         is_image a = true -> is_image b = true ->
         is_Some (output st !! a) -> is_Some (output st !! b) ->
         lookup_file src a = Some data_a ->
         lookup_file src b = Some data_b ->
         md5_hexdigest lib data_a = md5_hexdigest lib data_b ->
         a = b.
Proof.
  destruct clean_dataset_paired as (st & Hrun & Himg & _).
  exists st. split; [exact Hrun |].
  intros a b da db Ha Hb Hsa Hsb Hda Hdb Heq.
  destruct (Himg a Ha Hsa) as [_ _ _ (da' & Hda' & Hseen_a) _].
  destruct (Himg b Hb Hsb) as [_ _ _ (db' & Hdb' & Hseen_b) _].
  rewrite Hda in Hda'. injection Hda' as <-.
  rewrite Hdb in Hdb'. injection Hdb' as <-.
  rewrite Heq in Hseen_a. congruence.
Qed.

(** *** The counters of the first two rules *)

Definition no_label (img_path : str) : bool :=
  negb (exists_file src (label_of img_path)).

Definition invalid_label (img_path : str) : bool :=
  exists_file src (label_of img_path)
  && negb (Labels.validate_bounding_boxes lib src (label_of img_path)).

Lemma process_all_counts imgs st st' :
  process_all lib cfg src imgs st = Ok st' ->
  no_label_removed (st_stats st')
  = (no_label_removed (st_stats st) + length (List.filter no_label imgs))%nat
  /\ invalid_bbox_removed (st_stats st')
     = (invalid_bbox_removed (st_stats st)
        + length (List.filter invalid_label imgs))%nat.
Proof.
  revert st. induction imgs as [|p imgs IH]; intros st; simpl.
  - intros [= <-]. lia.
  - destruct (process_image lib cfg src st p) as [st1|] eqn:H1; simpl;
      [| discriminate].
    intros Hrun. destruct (IH _ Hrun) as [-> ->].
    apply process_image_step_cases in H1.
    unfold no_label, invalid_label, labelled in *.
    destruct H1 as [Hex -> |Hex Hv -> |data Hl Hd Hs ->
                    |data incr Hl Hd Hf Hb Hi ->
                    |data ldata written s Hl Hd Hld Hf Hb Hw Hs ->].
    + rewrite Hex. simpl. lia.
    + rewrite Hex, Hv. simpl. lia.
    + apply andb_true_iff in Hl as [-> ->]. simpl. lia.
    + apply andb_true_iff in Hl as [-> ->].
      destruct Hi as [-> | ->]; simpl; lia.
    + apply andb_true_iff in Hl as [-> ->].
      destruct Hs as [-> | ->]; simpl; lia.
Qed.

(** X6.  [no_label_removed] is the number of discovered images without a
    label file, and [invalid_bbox_removed] the number of those whose label
    file exists and is rejected by [validate_bounding_boxes]; neither
    depends on the contents of the images. *)
Theorem label_counters_are_exact (out0 : gmap str bytes) :
  exists st,
    clean_dataset lib cfg src out0 = Ok st
    /\ no_label_removed (st_stats st)
       = length (List.filter no_label (image_files src))
    /\ invalid_bbox_removed (st_stats st)
       = length (List.filter invalid_label (image_files src)).
Proof.
  unfold clean_dataset.
  destruct (process_all_run lib cfg src (image_files src) (init_state src out0)
              (image_files_all src)) as (st & Hrun & _).
  exists st. split; [exact Hrun |].
  destruct (process_all_counts _ _ _ Hrun) as [-> ->]. simpl. lia.
Qed.

End Runs.

(** Scenario A: the run returns, and a name that is neither an image nor a
    label is not in the output. *)
Lemma writes_only_witness :
  exists st,
    clean_dataset Sample.lib default_config Sample.dir_a ∅ = Ok st
    /\ output st !! Sample.name "notes.md" = None.
Proof.
  destruct (clean_dataset Sample.lib default_config Sample.dir_a ∅)
    as [st|e] eqn:Hrun; [| vm_compute in Hrun; discriminate Hrun].
  exists st. split; [reflexivity |].
  destruct (clean_dataset_writes_only_images_and_labels Sample.lib
              default_config Sample.dir_a ∅ st Hrun) as [_ Hother].
  rewrite Hother; [apply lookup_empty | |].
  - vm_compute. intros [H | [H | [H | []]]]; discriminate H.
  - intros img Hin. vm_compute in Hin.
    destruct Hin as [<- | [<- | [<- | []]]]; vm_compute; discriminate.
Defined.

End CleanRuns.

(** * The count of kept images *)

Module CleanCount.
Import Clean CleanFacts CleanRuns.

(** The images among the files of an output directory. *)
Definition images_of (out : gmap str bytes) : gmap str bytes :=
  filter (fun entry => is_image entry.1 = true) out.

Section Count.
Context (lib : Lib) (cfg : config) (src : dir).

Lemma images_of_label img_path ldata out :
  images_of (<[label_of img_path := ldata]> out) = images_of out.
Proof.
  unfold images_of. apply map_filter_insert_not. intros y. simpl.
  now rewrite label_of_not_image.
Qed.

Lemma images_of_image img_path data out :
  is_image img_path = true ->
  out !! img_path = None ->
  size (images_of (<[img_path := data]> out)) = S (size (images_of out)).
Proof.
  intros Himg Hnone. unfold images_of.
  rewrite map_filter_insert_True by exact Himg.
  apply map_size_insert_None, map_lookup_filter_None. now left.
Qed.

(** X7.  [kept] counts the images a run from an empty output directory leaves
    there. *)
Theorem kept_is_the_number_of_images_written :
  exists st,
    clean_dataset lib cfg src ∅ = Ok st
    /\ size (images_of (output st)) = kept (st_stats st).
Proof.
  destruct (clean_dataset_keeps lib cfg src
              (fun st => paired lib cfg src (seen_hashes st) (output st)
                         /\ size (images_of (output st)) = kept (st_stats st))
              ∅) as (st & Hrun & _ & Hcount).
  - intros st img st' Hin [Hpaired Hcount] Hstep.
    split; [now apply (paired_kept lib cfg src st img st') |].
    destruct (image_files_exist _ _ Hin) as [Hisimg _].
    destruct Hstep as [| | |data incr Hl Hd Hf Hb Hi ->
                       |data ldata written s Hl Hd Hld Hf Hb Hw Hs ->];
      subst; simpl; try assumption.
    + destruct Hi as [-> | ->]; simpl; assumption.
    + rewrite images_of_label.
      assert (output st !! img = None) as Hnew.
      { apply eq_None_not_Some. intros Hsome.
        destruct Hpaired as [Himg _].
        destruct (Himg img Hisimg Hsome) as [_ _ _ (data' & Hd' & Hseen) _].
        rewrite Hd in Hd'. injection Hd' as <-. congruence. }
      rewrite (images_of_image img written _ Hisimg Hnew), Hcount.
      destruct Hs as [-> | ->]; reflexivity.
  - split.
    + split; simpl; intros name _ [? H]; rewrite lookup_empty in H;
        discriminate H.
    + reflexivity.
  - now exists st.
Qed.

End Count.
End CleanCount.

(** * The runs of the splitter *)

Module SplitRuns.
Import Split SplitFacts.

Section Runs.
Context (R : Random) (src : dir).

(** [pair_up] keeps exactly the paths whose label file exists. *)
Lemma pair_up_spec paths img lbl :
  In (img, lbl) (pair_up src paths)
  <-> In img paths
      /\ lbl = Path.with_suffix img (Str.lit ".txt")
      /\ exists_file src lbl = true.
Proof.
  induction paths as [|q paths IH]; simpl; [tauto |].
  destruct (exists_file src (Path.with_suffix q (Str.lit ".txt"))) eqn:Hex;
    simpl; rewrite IH; split.
  - intros [[= <- <-] | (? & ? & ?)]; auto.
  - intros ([<- | Hin] & -> & Hl); auto.
  - intros (? & ? & ?); auto.
  - intros ([<- | Hin] & -> & Hl); [congruence | auto].
Qed.

(** The pairs of every split of a plan are valid pairs. *)
Lemma plan_pairs_valid train_ratio val_ratio seed p pair :
  plan_split R src train_ratio val_ratio seed = Ok p ->
  In pair (train_set p ++ val_set p ++ test_set p) ->
  In pair (pair_up src (image_paths src)).
Proof.
  unfold plan_split.
  destruct (image_paths src) as [|q paths] eqn:Hpaths; [discriminate |].
  rewrite <- Hpaths.
  destruct (pair_up src (image_paths src)) as [|pr prs] eqn:Hpairs;
    [discriminate |].
  rewrite <- Hpairs. unfold shuffle.
  destruct (shuffle_loop R _ _ _) as [shuffled|] eqn:Hsh; simpl; [| discriminate].
  destruct (Num.int_of_float _) as [a|]; simpl; [| discriminate].
  destruct (Num.int_of_float _) as [b|]; simpl; [| discriminate].
  intros [= <-]. simpl. intros Hin%in_slices.
  apply shuffle_loop_returns_perm in Hsh.
  now apply (Permutation_in _ Hsh) in Hin.
Qed.


(** *** Copies *)

(** From [t] to [t'] the directories are kept, and every file either is
    what it was or holds the bytes of the source file it is named after. *)
Definition copied (t t' : tree) : Prop :=
  tree_dirs t ⊆ tree_dirs t'
  /\ forall path,
       tree_files t' !! path = tree_files t !! path
       \/ exists d name data,
            path = d ++ [name] /\ lookup_file src name = Some data
            /\ tree_files t' !! path = Some data.

Lemma copied_refl t : copied t t.
Proof. split; [reflexivity | now left]. Qed.

Lemma copied_trans t1 t2 t3 : copied t1 t2 -> copied t2 t3 -> copied t1 t3.
Proof.
  intros [Hd12 H12] [Hd23 H23]. split; [set_solver |].
  intros path. destruct (H23 path) as [-> | H]; [apply H12 | now right].
Qed.

Lemma copy2_copied name d t data :
  lookup_file src name = Some data ->
  exists t', copy2 src name (d ++ [name]) t = Ok t'
             /\ copied t t'
             /\ tree_dirs t' = tree_dirs t
             /\ tree_files t' !! (d ++ [name]) = Some data.
Proof.
  intros Hdata. unfold copy2, read_bytes. rewrite Hdata. simpl.
  eexists. split; [reflexivity |]. simpl. split; [| split].
  - split; [reflexivity |]. simpl. intros path.
    destruct (decide (path = d ++ [name])) as [-> | Hne].
    + right. exists d, name, data. now rewrite lookup_insert_eq.
    + left. now rewrite lookup_insert_ne.
  - reflexivity.
  - apply lookup_insert_eq.
Qed.



Lemma mkdir_p_copied path t : copied t (mkdir_p path t).
Proof. split; [simpl; set_solver | now left]. Qed.






(** X9.  With valid ratios but no image that has a label file, which includes
    a directory without any [.jpg] or [.jpeg] file, [split_dataset] raises
    [RuntimeError] and leaves the output root as it found it. *)
Theorem split_dataset_without_pairs (train_ratio val_ratio : float)
    (seed : Z) (t0 : tree) :
  ratios_in_range train_ratio val_ratio = true ->
  ratios_sum_below_one train_ratio val_ratio = true ->
  pair_up src (image_paths src) = [] ->
  split_dataset R src train_ratio val_ratio seed t0 = (Some RuntimeError, t0).
Proof.
  intros Hr Hs Hnone. unfold split_dataset, plan_split.
  rewrite Hr, Hs. simpl.
  destruct (image_paths src); [reflexivity |]. now rewrite Hnone.
Qed.

(** X10.  An image without a label file is left out without a word: it is in
    no split, and it is copied to no [images/] directory. *)
Theorem unlabelled_images_are_in_no_split (name : str) :
  exists_file src (Path.with_suffix name (Str.lit ".txt")) = false ->
  (forall train_ratio val_ratio seed p,
      plan_split R src train_ratio val_ratio seed = Ok p ->
      ~ In name (map fst (train_set p ++ val_set p ++ test_set p)))
  /\ (forall train_ratio val_ratio seed t0 s,
        tree_files (snd (split_dataset R src train_ratio val_ratio seed t0))
          !! [s; Str.lit "images"; name]
        = tree_files t0 !! [s; Str.lit "images"; name]).
Proof.
  intros Hno.
  assert (forall train_ratio val_ratio seed p pair,
            plan_split R src train_ratio val_ratio seed = Ok p ->
            In pair (train_set p ++ val_set p ++ test_set p) ->
            fst pair <> name) as Hplan.
  { intros tr vr seed p [img lbl] Hp Hin. simpl. intros ->.
    apply (plan_pairs_valid tr vr seed p _ Hp) in Hin.
    apply pair_up_spec in Hin as (_ & -> & Hex). congruence. }
  split.
  - intros tr vr seed p Hp [pair [Hname Hin]]%in_map_iff.
    now apply (Hplan tr vr seed p pair Hp Hin).
  - intros tr vr seed t0 s. unfold split_dataset.
    destruct (negb (ratios_in_range tr vr)); [reflexivity |].
    destruct (negb (ratios_sum_below_one tr vr)); [reflexivity |].
    destruct (plan_split R src tr vr seed) as [p|] eqn:Hp; [| reflexivity].
    pose proof (prepare_split_untouched src (Str.lit "train") (train_set p)
                  t0 s name) as H1.
    destruct (prepare_split src (Str.lit "train") (train_set p) t0) as [e1 t1].
    pose proof (prepare_split_untouched src (Str.lit "val") (val_set p)
                  t1 s name) as H2.
    destruct (prepare_split src (Str.lit "val") (val_set p) t1) as [e2 t2].
    pose proof (prepare_split_untouched src (Str.lit "test") (test_set p)
                  t2 s name) as H3.
    destruct (prepare_split src (Str.lit "test") (test_set p) t2) as [e3 t3].
    simpl in *.
    assert (tree_files t1 !! [s; Str.lit "images"; name]
            = tree_files t0 !! [s; Str.lit "images"; name]) as E1.
    { apply H1. intros pr Hin. apply (Hplan tr vr seed p pr Hp).
      apply in_or_app. now left. }
    assert (tree_files t2 !! [s; Str.lit "images"; name]
            = tree_files t1 !! [s; Str.lit "images"; name]) as E2.
    { apply H2. intros pr Hin. apply (Hplan tr vr seed p pr Hp).
      apply in_or_app. right. apply in_or_app. now left. }
    assert (tree_files t3 !! [s; Str.lit "images"; name]
            = tree_files t2 !! [s; Str.lit "images"; name]) as E3.
    { apply H3. intros pr Hin. apply (Hplan tr vr seed p pr Hp).
      apply in_or_app. right. apply in_or_app. now right. }
    destruct e1; simpl; [exact E1 |].
    destruct e2; simpl; [congruence |]. congruence.
Qed.

End Runs.


(** One image and no label. *)
Lemma without_pairs_witness :
  split_dataset Sample.counter [(Sample.name "a.jpg", Sample.pixels [100]%N)]
    0.7 0.15 42 Sample.empty_tree
  = (Some RuntimeError, Sample.empty_tree).
Proof.
  apply (split_dataset_without_pairs Sample.counter
           [(Sample.name "a.jpg", Sample.pixels [100]%N)] 0.7 0.15 42
           Sample.empty_tree).
  - vm_compute. reflexivity.
  - vm_compute. reflexivity.
  - vm_compute. reflexivity.
Defined.

(** Scenario D with one more image, which has no label. *)
Lemma unlabelled_witness :
  tree_files
    (snd (split_dataset Sample.counter
            ((Sample.name "x.jpg", Sample.pixels [100]%N) :: Sample.dir_d)
            0.7 0.15 42 Sample.empty_tree))
    !! [Str.lit "train"; Str.lit "images"; Sample.name "x.jpg"]
  = tree_files Sample.empty_tree
      !! [Str.lit "train"; Str.lit "images"; Sample.name "x.jpg"].
Proof.
  apply (unlabelled_images_are_in_no_split Sample.counter
           ((Sample.name "x.jpg", Sample.pixels [100]%N) :: Sample.dir_d)
           (Sample.name "x.jpg")).
  vm_compute. reflexivity.
Defined.

End SplitRuns.

(** * What the splitter writes *)

Module SplitWrites.
Import Split SplitFacts SplitRuns.

Section Writes.
Context (R : Random) (src : dir).

Lemma copy2_any name d t :
  match copy2 src name (d ++ [name]) t with
  | Ok t' => copied src t t'
  | Raise _ => True
  end.
Proof.
  unfold copy2, read_bytes.
  destruct (lookup_file src name) as [data|] eqn:Hdata; simpl; [| exact I].
  destruct (copy2_copied src name d t data Hdata) as (t' & Hrun & Hc & _).
  unfold copy2, read_bytes in Hrun. rewrite Hdata in Hrun. simpl in Hrun.
  injection Hrun as <-. exact Hc.
Qed.

Lemma copy_pairs_any img_out lbl_out pairs t :
  copied src t (snd (copy_pairs src img_out lbl_out pairs t)).
Proof.
  revert t. induction pairs as [|[img lbl] rest IH]; intros t; simpl.
  - apply copied_refl.
  - pose proof (copy2_any img img_out t) as H1.
    destruct (copy2 src img (img_out ++ [img]) t) as [t1|]; simpl;
      [| apply copied_refl].
    pose proof (copy2_any lbl lbl_out t1) as H2.
    destruct (copy2 src lbl (lbl_out ++ [lbl]) t1) as [t2|]; simpl;
      [| exact H1].
    eauto using copied_trans.
Qed.

Lemma prepare_split_any split_name pairs t :
  copied src t (snd (prepare_split src split_name pairs t)).
Proof.
  unfold prepare_split.
  eauto using copied_trans, mkdir_p_copied, copy_pairs_any.
Qed.

(** X11.  Whatever the ratios, the seed, the generator and the outcome,
    [split_dataset] removes no directory; and every file of the output root
    is what it was before the call, or is named after a file of the source
    directory and holds its bytes. *)
Theorem split_dataset_writes_only_copies (train_ratio val_ratio : float)
    (seed : Z) (t0 : tree) :
  tree_dirs t0 ⊆ tree_dirs (snd (split_dataset R src train_ratio val_ratio seed t0))
  /\ forall path,
       tree_files (snd (split_dataset R src train_ratio val_ratio seed t0)) !! path
       = tree_files t0 !! path
       \/ exists d name data,
            path = d ++ [name]
            /\ lookup_file src name = Some data
            /\ tree_files (snd (split_dataset R src train_ratio val_ratio seed t0))
                 !! path = Some data.
Proof.
  change (copied src t0 (snd (split_dataset R src train_ratio val_ratio seed t0))).
  unfold split_dataset.
  destruct (negb (ratios_in_range train_ratio val_ratio)); [apply copied_refl |].
  destruct (negb (ratios_sum_below_one train_ratio val_ratio));
    [apply copied_refl |].
  destruct (plan_split R src train_ratio val_ratio seed) as [p|];
    [| apply copied_refl].
  pose proof (prepare_split_any (Str.lit "train") (train_set p) t0) as H1.
  destruct (prepare_split src (Str.lit "train") (train_set p) t0) as [e1 t1].
  pose proof (prepare_split_any (Str.lit "val") (val_set p) t1) as H2.
  destruct (prepare_split src (Str.lit "val") (val_set p) t1) as [e2 t2].
  pose proof (prepare_split_any (Str.lit "test") (test_set p) t2) as H3.
  destruct (prepare_split src (Str.lit "test") (test_set p) t2) as [e3 t3].
  simpl in *.
  destruct e1; simpl; [exact H1 |].
  destruct e2; simpl; eauto using copied_trans.
Qed.

End Writes.
End SplitWrites.

(** * The order of the listing *)

Module SplitOrder.
Import Split SplitFacts.

(** *** The order of Python strings *)

Definition str_le (a b : str) : Prop := str_leb a b = true.

Lemma str_leb_total a b : str_leb a b = true \/ str_leb b a = true.
Proof.
  revert b. induction a as [|x a IH]; intros [|y b]; simpl; auto.
  destruct (N.ltb_spec x y), (N.ltb_spec y x); auto; lia.
Qed.

Lemma str_leb_antisym a b : str_leb a b = true -> str_leb b a = true -> a = b.
Proof.
  revert b. induction a as [|x a IH]; intros [|y b]; simpl; try discriminate;
    [reflexivity |].
  destruct (N.ltb_spec x y), (N.ltb_spec y x); try discriminate; try lia.
  intros H1 H2. assert (x = y) as -> by lia. f_equal. now apply IH.
Qed.

Lemma str_leb_trans a b c :
  str_leb a b = true -> str_leb b c = true -> str_leb a c = true.
Proof.
  revert b c. induction a as [|x a IH]; intros [|y b] [|z c]; simpl;
    try discriminate; try reflexivity.
  destruct (N.ltb_spec x y), (N.ltb_spec y x), (N.ltb_spec y z),
    (N.ltb_spec z y), (N.ltb_spec x z), (N.ltb_spec z x);
    try discriminate; try reflexivity; try lia.
  apply IH.
Qed.

#[local] Instance str_le_trans : Transitive str_le.
Proof. intros a b c. apply str_leb_trans. Qed.

#[local] Instance str_le_antisym : AntiSymm (=) str_le.
Proof. intros a b. apply str_leb_antisym. Qed.

(** *** [sorted] sorts *)

Lemma insert_sorted_hd a p l :
  str_le a p -> HdRel str_le a l -> HdRel str_le a (insert_sorted p l).
Proof.
  intros Hap Hl. destruct l as [|q l]; simpl; [now constructor |].
  destruct (str_leb p q); constructor; [exact Hap |].
  now inversion Hl.
Qed.

Lemma insert_sorted_sorted p l :
  Sorted str_le l -> Sorted str_le (insert_sorted p l).
Proof.
  induction 1 as [|q l Hs IH Hhd]; simpl.
  - repeat constructor.
  - destruct (str_leb p q) eqn:Hpq.
    + constructor; [now constructor | now constructor].
    + constructor; [exact IH |]. apply insert_sorted_hd; [| exact Hhd].
      destruct (str_leb_total p q) as [H | H]; [congruence | exact H].
Qed.

Lemma sorted_is_sorted l : Sorted str_le (sorted l).
Proof.
  unfold sorted. induction l as [|p l IH]; simpl; [constructor |].
  now apply insert_sorted_sorted.
Qed.

(** The sorted list depends on the items only, not on their order. *)
Lemma sorted_of_perm l l' : l ≡ₚ l' -> sorted l = sorted l'.
Proof.
  intros Hp. apply (Sorted_unique str_le); try apply sorted_is_sorted.
  now rewrite !sorted_perm.
Qed.

Lemma filter_perm {A} (f : A -> bool) l l' :
  l ≡ₚ l' -> List.filter f l ≡ₚ List.filter f l'.
Proof.
  induction 1 as [|x l l' _ IH|x y l|l1 l2 l3 _ IH1 _ IH2]; simpl.
  - reflexivity.
  - destruct (f x); [now constructor | exact IH].
  - destruct (f x), (f y); try reflexivity. apply perm_swap.
  - now rewrite IH1.
Qed.

(** *** Directories that list the same files *)

Lemma lookup_file_Some d name data :
  List.NoDup (map fst d) -> (lookup_file d name = Some data <-> In (name, data) d).
Proof.
  induction d as [|[n b] d IH]; simpl; intros Hnd; [split; [discriminate | tauto] |].
  inversion Hnd as [|? ? Hn Hnd']; subst.
  destruct (Str.eqb n name) eqn:Heq.
  - apply CleanFacts.eqb_eq in Heq as ->. split.
    + intros [= ->]. now left.
    + intros [[= ->] | Hin]; [reflexivity |].
      exfalso. apply Hn. apply in_map_iff. now exists (name, data).
  - rewrite (IH Hnd'). split; [now right |].
    intros [[= -> _] | Hin]; [| exact Hin].
    rewrite (proj2 (CleanFacts.eqb_eq name name) eq_refl) in Heq. discriminate Heq.
Qed.

Lemma lookup_file_perm d d' name :
  d ≡ₚ d' -> List.NoDup (map fst d) -> lookup_file d name = lookup_file d' name.
Proof.
  intros Hp Hnd.
  assert (List.NoDup (map fst d')) as Hnd'.
  { apply (Permutation_NoDup (Permutation_map fst Hp) Hnd). }
  destruct (lookup_file d name) as [b|] eqn:H1.
  - symmetry. apply (lookup_file_Some d' name b Hnd').
    apply (Permutation_in _ Hp). now apply (lookup_file_Some d name b Hnd).
  - destruct (lookup_file d' name) as [b'|] eqn:H2; [| reflexivity].
    apply (lookup_file_Some d' name b' Hnd') in H2.
    apply (Permutation_in _ (Permutation_sym Hp)) in H2.
    apply (lookup_file_Some d name b' Hnd) in H2. congruence.
Qed.

Lemma image_paths_perm d d' : d ≡ₚ d' -> image_paths d = image_paths d'.
Proof.
  intros Hp. unfold image_paths, glob. apply sorted_of_perm.
  apply Permutation_app; apply filter_perm, Permutation_map, Hp.
Qed.

Section SameFiles.
Context (R : Random) (src src' : dir).
Context (Hfiles : forall name, lookup_file src name = lookup_file src' name).
Context (Hpaths : image_paths src = image_paths src').

Lemma pair_up_same paths : pair_up src paths = pair_up src' paths.
Proof.
  induction paths as [|q paths IH]; simpl; [reflexivity |].
  unfold exists_file. rewrite Hfiles, IH. reflexivity.
Qed.

Lemma plan_split_same train_ratio val_ratio seed :
  plan_split R src train_ratio val_ratio seed
  = plan_split R src' train_ratio val_ratio seed.
Proof. unfold plan_split. rewrite Hpaths, pair_up_same. reflexivity. Qed.

Lemma copy_pairs_same img_out lbl_out pairs t :
  copy_pairs src img_out lbl_out pairs t = copy_pairs src' img_out lbl_out pairs t.
Proof.
  revert t. induction pairs as [|[i l] rest IH]; intros t; simpl; [reflexivity |].
  unfold copy2, read_bytes. rewrite !Hfiles.
  destruct (lookup_file src' i); simpl; [| reflexivity].
  destruct (lookup_file src' l); simpl; [apply IH | reflexivity].
Qed.

Lemma split_dataset_same train_ratio val_ratio seed t0 :
  split_dataset R src train_ratio val_ratio seed t0
  = split_dataset R src' train_ratio val_ratio seed t0.
Proof.
  unfold split_dataset. rewrite plan_split_same.
  destruct (negb (ratios_in_range _ _)); [reflexivity |].
  destruct (negb (ratios_sum_below_one _ _)); [reflexivity |].
  destruct (plan_split R src' train_ratio val_ratio seed) as [p|];
    [| reflexivity].
  unfold prepare_split. rewrite copy_pairs_same.
  destruct (copy_pairs src' _ _ (train_set p) _) as [[e|] t1]; [reflexivity |].
  rewrite copy_pairs_same.
  destruct (copy_pairs src' _ _ (val_set p) _) as [[e|] t2]; [reflexivity |].
  apply copy_pairs_same.
Qed.

End SameFiles.

(** X12.  The split does not depend on the order in which the directory lists
    its files: two listings of the same files give the same plan and the
    same output root. *)
Theorem split_is_independent_of_listing_order (R : Random) (src src' : dir)
    (train_ratio val_ratio : float) (seed : Z) (t0 : tree) :
  src ≡ₚ src' ->
  List.NoDup (map fst src) ->
  plan_split R src train_ratio val_ratio seed
  = plan_split R src' train_ratio val_ratio seed
  /\ split_dataset R src train_ratio val_ratio seed t0
     = split_dataset R src' train_ratio val_ratio seed t0.
Proof.
  intros Hp Hnd.
  pose proof (fun name => lookup_file_perm src src' name Hp Hnd) as Hfiles.
  pose proof (image_paths_perm src src' Hp) as Hpaths.
  split.
  - now apply plan_split_same.
  - now apply split_dataset_same.
Qed.

Lemma listing_order_witness :
  plan_split Sample.counter Sample.dir_d 0.7 0.15 42
  = plan_split Sample.counter (rev Sample.dir_d) 0.7 0.15 42
  /\ split_dataset Sample.counter Sample.dir_d 0.7 0.15 42 Sample.empty_tree
     = split_dataset Sample.counter (rev Sample.dir_d) 0.7 0.15 42
         Sample.empty_tree.
Proof.
  apply (split_is_independent_of_listing_order Sample.counter Sample.dir_d
           (rev Sample.dir_d) 0.7 0.15 42 Sample.empty_tree).
  - apply Permutation_rev.
  - apply NoDup_ListNoDup. apply (bool_decide_unpack _). vm_compute. exact I.
Defined.

End SplitOrder.

(** * The cleaned directory as a source *)

Module Cleaned.
Import Clean CleanFacts CleanRuns.

(** The output directory read back as a directory: its files, in some
    order. *)
Definition dir_of_output (out : gmap str bytes) : dir := map_to_list out.

Lemma map_fmap {A B} (f : A -> B) (l : list A) : map f l = f <$> l.
Proof. induction l as [|x l IH]; simpl; [reflexivity | now rewrite IH]. Qed.

Lemma dir_of_output_nodup out : List.NoDup (map fst (dir_of_output out)).
Proof.
  unfold dir_of_output. rewrite map_fmap.
  apply NoDup_ListNoDup, NoDup_fst_map_to_list.
Qed.

Lemma lookup_dir_of_output out name :
  lookup_file (dir_of_output out) name = out !! name.
Proof.
  destruct (out !! name) as [b|] eqn:Hout.
  - apply (SplitOrder.lookup_file_Some _ _ _ (dir_of_output_nodup out)).
    apply list_elem_of_In, elem_of_map_to_list, Hout.
  - destruct (lookup_file (dir_of_output out) name) as [b|] eqn:Hl; [| reflexivity].
    apply (SplitOrder.lookup_file_Some _ _ _ (dir_of_output_nodup out)) in Hl.
    apply list_elem_of_In, elem_of_map_to_list in Hl. congruence.
Qed.

(** *** What the checks read of a directory *)

Section SameFile.
Context (lib : Lib) (cfg : config) (d d' : dir).

Lemma validate_same name :
  lookup_file d name = lookup_file d' name ->
  Labels.validate_bounding_boxes lib d name
  = Labels.validate_bounding_boxes lib d' name.
Proof.
  intros H. unfold Labels.validate_bounding_boxes, Labels.read_lines,
    exists_file, read_bytes. now rewrite H.
Qed.

Lemma check_brightness_same name :
  lookup_file d name = lookup_file d' name ->
  check_brightness lib cfg d name = check_brightness lib cfg d' name.
Proof.
  intros H. unfold check_brightness, calculate_brightness, imread. now rewrite H.
Qed.

End SameFile.

(** *** A directory in which every image passes every check *)

Section AllKept.
Context (lib : Lib) (cfg : config) (d : dir).

(** An image with a valid label and a brightness within the bounds. *)
Definition passes (img_path : str) : Prop :=
  labelled lib d img_path = true
  /\ check_brightness lib cfg d img_path = Passed.

Lemma process_all_grows imgs st st' name :
  process_all lib cfg d imgs st = Ok st' ->
  is_Some (output st !! name) -> is_Some (output st' !! name).
Proof.
  intros Hrun H0.
  apply (process_all_keeps lib cfg d (fun s => is_Some (output s !! name)) imgs)
    with (st := st); auto.
  intros s i s' _ Hs Hstep. destruct Hstep; subst; simpl; auto.
  rewrite !lookup_insert_is_Some'. auto.
Qed.

(** Images that all pass, with digests that differ from one another and
    from those seen, are all kept and written with their labels. *)
Lemma process_all_keeps_all imgs :
  List.NoDup imgs ->
  (forall i, In i imgs -> passes i /\ is_Some (lookup_file d i)) ->
  (forall i j di dj,
      In i imgs -> In j imgs ->
      lookup_file d i = Some di -> lookup_file d j = Some dj ->
      md5_hexdigest lib di = md5_hexdigest lib dj -> i = j) ->
  forall st,
    (forall i di, In i imgs -> lookup_file d i = Some di ->
                  seen_hashes st !! md5_hexdigest lib di = None) ->
    exists st',
      process_all lib cfg d imgs st = Ok st'
      /\ kept (st_stats st') = (kept (st_stats st) + length imgs)%nat
      /\ forall i, In i imgs ->
           is_Some (output st' !! i) /\ is_Some (output st' !! label_of i).
Proof.
  induction 1 as [|i imgs Hni Hnd IH]; intros Hpass Hdistinct st Hfresh; simpl.
  - exists st. split; [reflexivity |]. split; [lia | intros ? []].
  - destruct (Hpass i (or_introl eq_refl)) as [[Hl Hb] [data Hdata]].
    pose proof Hl as Hl'. unfold labelled in Hl'.
    apply andb_true_iff in Hl' as [Hex Hv].
    destruct (exists_file_lookup _ _ Hex) as [ldata Hldata].
    pose proof (Hfresh i data (or_introl eq_refl) Hdata) as Hf.
    destruct (accept_ok lib cfg d i (label_of i)
                (with_seen (md5_hexdigest lib data) i st) data ldata
                Hdata Hldata) as (written & Hacc & _).
    assert (process_image lib cfg d st i
            = accept lib cfg d i (label_of i)
                (with_seen (md5_hexdigest lib data) i st)) as Hstep.
    { unfold process_image, calculate_image_hash, read_bytes.
      rewrite Hex, Hv, Hdata. simpl.
      rewrite bool_decide_eq_false_2 by (rewrite Hf; now intros [? ?]).
      now rewrite Hb. }
    rewrite Hstep, Hacc. simpl.
    match goal with |- context [process_all _ _ _ _ ?s] => set (st1 := s) end.
    destruct (IH (fun j Hj => Hpass j (or_intror Hj))
                 (fun a b da db Ha Hb' => Hdistinct a b da db (or_intror Ha)
                                            (or_intror Hb'))
                 st1) as (st' & Hrun & Hkept & Hall).
    { intros j dj Hj Hdj. unfold st1. simpl.
      rewrite lookup_insert_ne; [apply (Hfresh j dj (or_intror Hj) Hdj) |].
      intros Heq. apply Hni.
      rewrite (Hdistinct i j data dj (or_introl eq_refl) (or_intror Hj)
                 Hdata Hdj Heq).
      exact Hj. }
    exists st'. split; [exact Hrun |]. split.
    { rewrite Hkept. unfold st1. simpl.
      destruct (apply_enhancement cfg && _); simpl; lia. }
    intros j [<- | Hj]; [| now apply Hall].
    split; apply (process_all_grows imgs st1 st' _ Hrun); unfold st1; simpl;
      rewrite !lookup_insert_is_Some'; auto.
Qed.

End AllKept.

Lemma lookup_file_listed d name data :
  lookup_file d name = Some data -> In name (map fst d).
Proof.
  induction d as [|[n b] d IH]; simpl; [discriminate |].
  destruct (Str.eqb n name) eqn:Heq; [| auto].
  apply eqb_eq in Heq. auto.
Qed.

(** Without enhancement, a run from an empty output directory leaves there
    only bytes of the source file of the same name. *)
Lemma plain_run_copies (lib : Lib) (cfg : config) (src : dir) :
  apply_enhancement cfg = false ->
  exists st,
    clean_dataset lib cfg src ∅ = Ok st
    /\ forall name content,
         output st !! name = Some content -> lookup_file src name = Some content.
Proof.
  intros Hoff.
  apply (clean_dataset_keeps lib cfg src
           (fun st => forall name content,
                        output st !! name = Some content ->
                        lookup_file src name = Some content)).
  - intros st img st' _ HP Hstep.
    destruct Hstep as [| | | |data ldata written s Hl Hd Hld Hf Hb Hw Hs ->];
      subst; simpl; try assumption.
    intros name content.
    rewrite lookup_insert_Some. intros [[<- <-] | [_ Hlook]]; [exact Hld |].
    apply lookup_insert_Some in Hlook as [[<- <-] | [_ Hlook]]; [| now apply HP].
    destruct Hw as [-> | Hon]; [exact Hd | congruence].
  - intros name content H. simpl in H. rewrite lookup_empty in H.
    discriminate H.
Qed.

Section Again.
Context (lib : Lib) (cfg : config) (src : dir).

(** What the images of a cleaned directory are, read back from it. *)
Lemma cleaned_images st :
  clean_dataset lib cfg src ∅ = Ok st ->
  forall img_path,
    In img_path (image_files (dir_of_output (output st))) ->
    kept_image lib cfg src (seen_hashes st) (output st) img_path
    /\ is_Some (output st !! img_path).
Proof.
  intros Hrun img [Hin Himg]%filter_In.
  destruct (clean_dataset_paired lib cfg src) as (st_ & Hrun_ & Hk & _).
  rewrite Hrun in Hrun_. injection Hrun_ as <-.
  destruct (lookup_file_in _ _ Hin) as [b Hb].
  rewrite lookup_dir_of_output in Hb.
  split; [apply Hk; eauto | eauto].
Qed.

(** The label of a cleaned image is in the cleaned directory and is valid
    there. *)
Lemma cleaned_label_valid st img_path :
  clean_dataset lib cfg src ∅ = Ok st ->
  In img_path (image_files (dir_of_output (output st))) ->
  labelled lib (dir_of_output (output st)) img_path = true.
Proof.
  intros Hrun Hin.
  destruct (cleaned_images st Hrun img_path Hin) as [[_ Hl _ _ Hc] _].
  unfold labelled in *. apply andb_true_iff in Hl as [Hex Hv].
  assert (lookup_file (dir_of_output (output st)) (label_of img_path)
          = lookup_file src (label_of img_path)) as Hsame.
  { now rewrite lookup_dir_of_output. }
  rewrite (validate_same lib _ src _ Hsame), Hv.
  unfold exists_file in *. now rewrite Hsame, Hex.
Qed.

End Again.

(** X13.  Cleaning is idempotent.  Without enhancement, a second run over the
    cleaned directory rejects nothing and writes the cleaned directory
    again, file for file. *)
Theorem cleaning_twice_changes_nothing (lib : Lib) (cfg : config) (src : dir) :
  apply_enhancement cfg = false ->
  exists st st2,
    clean_dataset lib cfg src ∅ = Ok st
    /\ clean_dataset lib cfg (dir_of_output (output st)) ∅ = Ok st2
    /\ output st2 = output st
    /\ kept (st_stats st2) = total_images (st_stats st2).
Proof.
  intros Hoff.
  destruct (plain_run_copies lib cfg src Hoff) as (st & Hrun & Hcopy).
  destruct (clean_dataset_paired lib cfg src) as (st_ & Hrun_ & _ & Hlbl).
  rewrite Hrun in Hrun_. injection Hrun_ as <-.
  set (cleaned := dir_of_output (output st)).
  pose proof (cleaned_images lib cfg src st Hrun) as Himgs. fold cleaned in Himgs.
  assert (forall i di, In i (image_files cleaned) ->
                       lookup_file cleaned i = Some di ->
                       lookup_file src i = Some di
                       /\ seen_hashes st !! md5_hexdigest lib di = Some i)
    as Hdigest.
  { intros i di Hin Hdi. unfold cleaned in Hdi. rewrite lookup_dir_of_output in Hdi.
    pose proof (Hcopy _ _ Hdi) as Hsrc. split; [exact Hsrc |].
    destruct (Himgs i Hin) as [[_ _ _ (data & Hdata & Hseen) _] _]. congruence. }
  destruct (process_all_keeps_all lib cfg cleaned (image_files cleaned))
    with (st := init_state cleaned ∅) as (st2 & Hrun2 & Hkept & Hall).
  { apply List.NoDup_filter, dir_of_output_nodup. }
  { intros i Hin. destruct (Himgs i Hin) as [[_ Hl Hb (data & Hdata & _) _] [b Hb']].
    assert (lookup_file cleaned i = lookup_file src i) as Hsame.
    { unfold cleaned. rewrite lookup_dir_of_output, Hb'. symmetry. now apply Hcopy. }
    split; [split |].
    - now apply (cleaned_label_valid lib cfg src st).
    - now rewrite (check_brightness_same lib cfg cleaned src i Hsame).
    - rewrite Hsame, Hdata. eauto. }
  { intros i j di dj Hi Hj Hdi Hdj Heq.
    destruct (Hdigest i di Hi Hdi) as [_ Hsi].
    destruct (Hdigest j dj Hj Hdj) as [_ Hsj]. congruence. }
  { intros i di _ _. apply lookup_empty. }
  exists st, st2. split; [exact Hrun |]. split; [exact Hrun2 |].
  destruct (plain_run_copies lib cfg cleaned Hoff) as (st2_ & Hrun2_ & Hcopy2).
  unfold clean_dataset in Hrun2_. rewrite Hrun2 in Hrun2_. injection Hrun2_ as <-.
  destruct (process_all_run lib cfg cleaned (image_files cleaned)
              (init_state cleaned ∅) (image_files_all cleaned))
    as (st2_ & Hrun2_ & Htot & _).
  rewrite Hrun2 in Hrun2_. injection Hrun2_ as <-.
  split; [| rewrite Hkept, Htot; reflexivity].
  apply map_eq. intros name.
  destruct (output st2 !! name) as [b|] eqn:H2.
  - apply Hcopy2 in H2. unfold cleaned in H2.
    now rewrite lookup_dir_of_output in H2.
  - destruct (output st !! name) as [b|] eqn:H1; [| reflexivity].
    exfalso. assert (is_Some (output st2 !! name)) as [? Hsome];
      [| congruence].
    assert (forall i, is_image i = true -> is_Some (output st !! i) ->
                      In i (image_files cleaned)) as Hlisted.
    { intros i Hi [bi Hbi]. apply filter_In. split; [| exact Hi].
      apply (lookup_file_listed cleaned i bi). unfold cleaned.
      now rewrite lookup_dir_of_output. }
    destruct (is_image name) eqn:Hn.
    + apply Hall, Hlisted; eauto.
    + destruct (Hlbl name Hn) as (img & -> & Hin & Hs); [eauto |].
      apply Hall, Hlisted; [| exact Hs]. apply (image_files_exist _ _ Hin).
Qed.

Lemma cleaning_twice_witness :
  exists st st2,
    clean_dataset Sample.lib default_config Sample.dir_a ∅ = Ok st
    /\ clean_dataset Sample.lib default_config (dir_of_output (output st)) ∅
       = Ok st2
    /\ output st2 = output st
    /\ kept (st_stats st2) = total_images (st_stats st2).
Proof.
  apply (cleaning_twice_changes_nothing Sample.lib default_config Sample.dir_a).
  reflexivity.
Defined.

(** *** From the cleaner to the splitter *)

Lemma pair_up_all d paths :
  (forall img, In img paths ->
               exists_file d (Path.with_suffix img (Str.lit ".txt")) = true) ->
  map fst (Split.pair_up d paths) = paths.
Proof.
  induction paths as [|q paths IH]; intros Hall; simpl; [reflexivity |].
  rewrite (Hall q (or_introl eq_refl)). simpl. f_equal.
  apply IH. intros img Hin. apply Hall. now right.
Qed.

Lemma label_of_not_jpg img_path ext :
  ext = Str.lit ".jpg" \/ ext = Str.lit ".jpeg" -> label_of img_path <> ext.
Proof.
  intros Hext H. unfold label_of in H.
  apply (f_equal (@rev N)) in H. rewrite rev_app_distr in H.
  destruct Hext as [-> | ->]; vm_compute in H; discriminate H.
Qed.

(** X14.  The splitter run on a directory cleaned from empty drops no image it
    enumerates: each has its label file, and each label of a pair passes
    [validate_bounding_boxes] there. *)
Theorem splitter_pairs_every_cleaned_image (lib : Lib) (cfg : config) (src : dir) :
  exists st,
    clean_dataset lib cfg src ∅ = Ok st
    /\ map fst (Split.pair_up (dir_of_output (output st))
                  (Split.image_paths (dir_of_output (output st))))
       = Split.image_paths (dir_of_output (output st))
    /\ forall img lbl,
         In (img, lbl) (Split.pair_up (dir_of_output (output st))
                          (Split.image_paths (dir_of_output (output st)))) ->
         Labels.validate_bounding_boxes lib (dir_of_output (output st)) lbl = true.
Proof.
  destruct (clean_dataset_paired lib cfg src) as (st & Hrun & _ & Hlbl).
  exists st. split; [exact Hrun |].
  set (cleaned := dir_of_output (output st)).
  assert (forall img, In img (Split.image_paths cleaned) ->
                      labelled lib cleaned img = true) as Hlabelled.
  { intros img [Hin Hglob]%SplitFacts.image_paths_in.
    apply (cleaned_label_valid lib cfg src st img Hrun).
    apply filter_In. split; [exact Hin |].
    assert (exists ext, (ext = Str.lit ".jpg" \/ ext = Str.lit ".jpeg")
                        /\ Path.glob_star ext img = true) as (ext & Hext & Hm).
    { destruct Hglob; eauto. }
    destruct (SplitFacts.glob_star_suffix ext img Hext Hm) as [-> | Hs].
    - exfalso. destruct (lookup_file_in _ _ Hin) as [b Hb].
      unfold cleaned in Hb. rewrite lookup_dir_of_output in Hb.
      destruct (Hlbl ext) as (i & Hi & _); [| eauto |].
      + destruct Hext as [-> | ->]; vm_compute; reflexivity.
      + symmetry in Hi. now apply (label_of_not_jpg i ext Hext).
    - unfold is_image. rewrite Hs.
      destruct Hext as [-> | ->]; vm_compute; reflexivity. }
  split.
  - apply pair_up_all. intros img Hin.
    pose proof (Hlabelled img Hin) as Hl. unfold labelled in Hl.
    now apply andb_true_iff in Hl as [Hex _].
  - intros img lbl Hin.
    assert (In img (Split.image_paths cleaned)
            /\ lbl = Path.with_suffix img (Str.lit ".txt")) as [Himg ->].
    { clear -Hin. induction (Split.image_paths cleaned) as [|q paths IH];
        simpl in Hin; [destruct Hin |].
      destruct (exists_file cleaned _); simpl in Hin.
      - destruct Hin as [[= <- <-] | Hin]; [split; [now left | reflexivity] |].
        destruct (IH Hin). split; [now right | assumption].
      - destruct (IH Hin). split; [now right | assumption]. }
    pose proof (Hlabelled img Himg) as Hl. unfold labelled in Hl.
    now apply andb_true_iff in Hl as [_ Hv].
Qed.

End Cleaned.
